(** * dcitools.devices.doremi.commands: KLV frame codec and command calls

    A shallow embedding of [dcitools/devices/doremi/commands.py] and the
    properties of its frame construction, payload parsing, request-id
    generation, wire-trace explainer and command send/receive paths.

    Conventions of the embedding
    - Python [bytes]/[bytearray] values are [list byte].
    - Python integers are [Z]; [%] with a positive modulus is [Z.modulo].
    - A Python exception is a value of [exn]; a computation that may raise
      returns [exn + A]; a computation that also touches the process state
      (the global [REQUEST_ID], the socket, the log) is a function
      [World -> (exn + A) * World], so that a raise keeps every effect that
      happened before it, as in Python.
    - Names are those of the source; [end_] stands for the attribute
      [end], [def_name] for the [name] of a [MessageDefinition], and
      [CommandCall_send], [CommandCall_receive] for the methods.
    - [toolbox.bytes], the socket, [logging] and the two catalogs are not
      part of the module; they are modelled from the specification or
      taken as parameters, and marked as such.
    - A function with [**kwargs] has two definitions: its body, over the
      dictionary [kwargs] that Python has bound, under the name of the
      function, and its call, which binds the named arguments first,
      under that name followed by [_call].

    The file has three parts: the embedding of the module, the
    vocabulary in which the claims are stated, and the properties. *)

From Stdlib Require Import ZArith Lia Ascii String.
From Stdlib Require Strings.Byte.
From stdpp Require Import base option list strings gmap pretty.

Local Open Scope Z_scope.

Abbreviation byte := Init.Byte.byte.
Abbreviation bytes := (list byte).

(** ** Bytes *)

Definition Z_of_byte (b : byte) : Z := Z.of_N (Byte.to_N b).

Definition byte_of_Z (z : Z) : byte :=
  default Byte.x00 (Byte.of_N (Z.to_N (z mod 256))).

#[global] Instance byte_eq_dec : EqDecision byte := Byte.byte_eq_dec.

#[global] Program Instance byte_countable : Countable byte :=
  inj_countable Byte.to_N Byte.of_N _.
Next Obligation. intros b. apply Byte.of_to_N. Qed.

(** Python slicing [data[start:stop]] for integer bounds and step 1: a
    negative bound counts from the end, and both bounds are clamped to
    [0, len(data)]. *)
Definition slice_index (len i : Z) : Z :=
  let j := if i <? 0 then i + len else i in
  Z.max 0 (Z.min len j).

Definition py_slice {A} (data : list A) (start stop : Z) : list A :=
  let len := Z.of_nat (length data) in
  let lo := slice_index len start in
  let hi := slice_index len stop in
  take (Z.to_nat (hi - lo)) (drop (Z.to_nat lo) data).

(** [data[start:]] *)
Definition py_slice_from {A} (data : list A) (start : Z) : list A :=
  drop (Z.to_nat (slice_index (Z.of_nat (length data)) start)) data.

(** ** Exceptions *)

Inductive exn : Type :=
  | IndexError        (* [args[arg_iterator]] past the end of [args] *)
  | KeyError          (* a catalog lookup that finds nothing *)
  | FuncError         (* raised inside an element's [func] *)
  | MalformedLength   (* a BER length field that is cut short *)
  | TransportError    (* the socket failed *)
  | TypeError         (* a named argument for a parameter that has a value *)
  | NameError.        (* a name that the module does not bind *)

(** The specification calls the [IndexError] of [args[arg_iterator]]
    [MissingArgument]. *)
Abbreviation MissingArgument := IndexError (only parsing).

#[global] Instance exn_eq_dec : EqDecision exn.
Proof. solve_decision. Defined.

#[global] Instance exn_ret : MRet (sum exn) := λ _ a, inr a.
#[global] Instance exn_bind : MBind (sum exn) := λ _ _ f m,
  match m with inl e => inl e | inr a => f a end.

Definition of_option {A} (e : exn) (o : option A) : exn + A :=
  match o with Some a => inr a | None => inl e end.

(** ** The external [toolbox.bytes] helpers *)

Module toolbox.

(** Modelled from the spec: [toolbox.bytes.int_to_bytes(val, size)] is
    not part of this repository; the specification fixes it as the
    big-endian encoding of [val] on [size] bytes. *)
Fixpoint int_to_bytes (val : Z) (size : nat) : bytes :=
  match size with
  | O => []
  | S size' => byte_of_Z (val / 256 ^ Z.of_nat size') :: int_to_bytes val size'
  end.

(** Modelled from the spec: [toolbox.bytes.bytes_to_int], the big-endian
    value of a byte string. *)
Definition bytes_to_int (data : bytes) : Z :=
  fold_left (λ acc b, acc * 256 + Z_of_byte b) data 0.

Definition hex_digit (n : Z) : ascii :=
  match n with
  | 0 => "0" | 1 => "1" | 2 => "2" | 3 => "3" | 4 => "4" | 5 => "5"
  | 6 => "6" | 7 => "7" | 8 => "8" | 9 => "9" | 10 => "a" | 11 => "b"
  | 12 => "c" | 13 => "d" | 14 => "e" | _ => "f"
  end%char.

(** Modelled from the spec: [toolbox.bytes.bytes_to_hex], the hex
    representation of a byte string, two digits per byte (in lower case,
    as Python's own hex functions print them). *)
Fixpoint bytes_to_hex (data : bytes) : string :=
  match data with
  | [] => EmptyString
  | b :: data' =>
      String (hex_digit (Z_of_byte b / 16))
        (String (hex_digit (Z_of_byte b mod 16)) (bytes_to_hex data'))
  end.

(** Number of bytes needed to hold [n] in big-endian (at least one). *)
Definition byte_width (n : Z) : nat := Z.to_nat (Z.log2 n / 8 + 1).

(** Modelled from the spec: [toolbox.bytes.encode_ber] is
    [encode_length] of the specification: the short form is the single
    byte [n] for [n < 128]; the long form is [0x80 | k] followed by the
    [k] big-endian bytes of [n], with the least such [k]. *)
Definition encode_ber (n : Z) : bytes :=
  if n <? 128 then [byte_of_Z n]
  else
    let k := byte_width n in
    byte_of_Z (Z.lor 128 (Z.of_nat k)) :: int_to_bytes n k.

(** Modelled from the spec: [toolbox.bytes.decode_ber] is
    [decode_length] of the specification; it returns the length and the
    number of bytes consumed, and fails with [MalformedLength] when the
    announced bytes are not there. *)
Definition decode_ber (data : bytes) : exn + (Z * nat) :=
  match data with
  | [] => inl MalformedLength
  | b :: rest =>
      if Z.testbit (Z_of_byte b) 7 then
        let k := Z.to_nat (Z.land (Z_of_byte b) 127) in
        if decide (k ≤ length rest)%nat
        then inr (bytes_to_int (take k rest), S k)
        else inl MalformedLength
      else inr (Z_of_byte b, 1%nat)
  end.

End toolbox.

(** ** Message schemas *)

(** Modelled from the spec: the field descriptor of [message.py], with
    the attributes that [commands.py] reads: [name], [start], [end],
    [func] and [text_translate].  The one attribute [func] is the encoder
    of a request field and the decoder of a response field, so the record
    is parametric in its argument and result types: a request schema is a
    [MessageDefinition Arg bytes], a response schema a
    [MessageDefinition bytes Val]. *)
Record MessageElement (A B : Type) `{Countable B} := {
  name : string;
  start : Z;
  end_ : Z;
  func : A → option B;                       (* [None]: [func] raises *)
  text_translate : option (gmap B string);   (* [None] is Python's [None] *)
}.
Arguments name {A B _ _} _.
Arguments start {A B _ _} _.
Arguments end_ {A B _ _} _.
Arguments func {A B _ _} _ _.
Arguments text_translate {A B _ _} _.

(** Modelled from the spec: the message schema of [message.py], with the
    attributes [name], [key] and [elements]. *)
Record MessageDefinition (A B : Type) `{Countable B} := {
  def_name : string;
  key : bytes;
  elements : list (MessageElement A B);
}.
Arguments def_name {A B _ _} _.
Arguments key {A B _ _} _.
Arguments elements {A B _ _} _.

(** Catalog lookups are made with a hex string in [explain_klv] and with
    the received bytes in [CommandCall.receive]. *)
Inductive catalog_key : Type :=
  | KeyHex (s : string)
  | KeyBytes (b : bytes).

(** ** Constants *)

Definition HEADER : bytes :=
  [Byte.x06; Byte.x0e; Byte.x2b; Byte.x34; Byte.x02; Byte.x05; Byte.x01;
   Byte.x0a; Byte.x0e; Byte.x10; Byte.x01; Byte.x01; Byte.x01].

(** ** The process state and the effect monad *)

(** Modelled from the spec: the socket collaborator is not part of this
    repository; the specification gives it a blocking [send(bytes)] and a
    blocking [receive(n)] that returns bytes of length [n]; each of them
    may fail. *)
Class Transport (Sock : Type) := {
  sock_send : bytes → Sock → (exn + unit) * Sock;
  sock_receive : Z → Sock → (exn + bytes) * Sock;
  sock_receive_length n s data s' :
    sock_receive n s = (inr data, s') → Z.of_nat (length data) = n;
}.

(** The module-level [REQUEST_ID], the socket, and what was handed to
    [logging.debug], oldest first. *)
Record World (Sock : Type) := mkWorld {
  REQUEST_ID : Z;
  sock : Sock;
  logged : list string;
}.
Arguments mkWorld {Sock} _ _ _.
Arguments REQUEST_ID {Sock} _.
Arguments sock {Sock} _.
Arguments logged {Sock} _.

Definition M (Sock A : Type) : Type := World Sock → (exn + A) * World Sock.

#[global] Instance M_ret {Sock} : MRet (M Sock) := λ _ a w, (inr a, w).
#[global] Instance M_bind {Sock} : MBind (M Sock) := λ _ _ f m w,
  match m w with
  | (inl e, w') => (inl e, w')
  | (inr a, w') => f a w'
  end.

Definition lift {Sock A} (r : exn + A) : M Sock A := λ w, (r, w).

Definition on_sock {Sock A} (f : Sock → (exn + A) * Sock) : M Sock A := λ w,
  let '(r, s') := f (sock w) in (r, mkWorld (REQUEST_ID w) s' (logged w)).

(** The lookup of the name [logging], with which the evaluation of
    [logging.debug(...)] starts, before the argument is evaluated.
    [commands.py] does not import [logging] (lines 9-14); the name is
    bound only if [from toolbox.bytes import *] brings it along, and
    [toolbox] is not part of the repository: [logging_bound] says whether
    it does.  With the module's own imports alone it is [false] and the
    lookup raises [NameError]. *)
Definition logging_name {Sock} (logging_bound : bool) : M Sock unit :=
  if logging_bound then mret () else lift (inl NameError).

(** The call [.debug(msg)] on the module [logging], once the name has
    been looked up ([logging_name]) and the argument evaluated. *)
Definition logging_debug {Sock} (msg : string) : M Sock unit := λ w,
  (inr (), mkWorld (REQUEST_ID w) (sock w) (logged w ++ [msg])).

(** ** Request ids *)

Definition get_new_request_id {Sock} : M Sock Z := λ w,
  let REQUEST_ID' := (REQUEST_ID w + 1) mod 60000 in
  (inr REQUEST_ID', mkWorld REQUEST_ID' (sock w) (logged w)).

Definition get_new_request_id_bytes {Sock} : M Sock bytes :=
  n ← get_new_request_id; mret (toolbox.int_to_bytes n 4).

(** [n] successive calls of the generator, with the values they return. *)
Fixpoint request_ids {Sock} (n : nat) : M Sock (list Z) :=
  match n with
  | O => mret []
  | S n' => x ← get_new_request_id; xs ← request_ids n'; mret (x :: xs)
  end.

(** ** Ordered dictionaries *)

(** [collections.OrderedDict] with string keys: assignment to a key that
    is present keeps its position, assignment to a new key appends. *)
Abbreviation OrderedDict V := (list (string * V)).

Fixpoint od_set {V} (k : string) (v : V) (d : OrderedDict V) : OrderedDict V :=
  match d with
  | [] => [(k, v)]
  | (k', v') :: d' =>
      if decide (k = k') then (k, v) :: d' else (k', v') :: od_set k v d'
  end.

Fixpoint od_get {V} (k : string) (d : OrderedDict V) : option V :=
  match d with
  | [] => None
  | (k', v') :: d' => if decide (k = k') then Some v' else od_get k d'
  end.

(** A parsed result holds decoded values under the field names and
    strings under the [_text] keys. *)
Inductive parsed (Val : Type) : Type :=
  | Decoded (v : Val)
  | Text (s : string).
Arguments Decoded {Val} _.
Arguments Text {Val} _.

Definition nl : string := String (ascii_of_nat 10) EmptyString.

(** What [explain_klv] passes to [format], in order; the last argument
    of [format] is computed from the others. *)
Record klv_segments : Type := mk_klv_segments {
  header_hex : string;
  key_hex : string;
  key_name : string;
  ber_hex : string;
  ber : Z;
  id_hex : string;
  id_int : Z;
  short_hex : string;
}.

Definition klv_format (s : klv_segments) : string :=
  nl +:+
  "             0.......4.......8.......12......16......20......24......28......32" +:+ nl +:+
  "    Header : " +:+ header_hex s +:+ nl +:+
  "    Key    : " +:+ key_hex s +:+ " (" +:+ key_name s +:+ ")" +:+ nl +:+
  "    Ber    : " +:+ ber_hex s +:+ " (" +:+ pretty (ber s) +:+ ")" +:+ nl +:+
  "    ID     : " +:+ id_hex s +:+ " (" +:+ pretty (id_int s) +:+ ")" +:+ nl +:+
  "    Data   : " +:+ short_hex s +:+ nl +:+
  "    Command: " +:+
     (header_hex s +:+ key_hex s +:+ ber_hex s +:+ id_hex s +:+ short_hex s) +:+ nl +:+
  "    ".

(** ** Parameter binding *)

(** Python's binding of the named arguments of a call [f(x, *args,
    **named)] to a function [def f(param, *args, **kwargs)]: a named
    argument [param] collides with the value given in first position and
    the call raises [TypeError] before the body runs; otherwise the named
    arguments are the dictionary [kwargs] of the body. *)
Definition bind_kwargs {Arg} (param : string) (named : gmap string Arg)
    : exn + gmap string Arg :=
  if decide (is_Some (named !! param)) then inl TypeError else inr named.

(** ** The codec and the command calls *)

Section Doremi.
Context {Arg Val : Type} `{Countable Val}.
Context {Sock : Type} `{Transport Sock}.

(** Whether the name [logging] is bound in the module, see
    [logging_name]. *)
Variable logging_bound : bool.

(** The catalogs [requests] and [responses] are external to the codec:
    [get_by_key] either returns a schema or raises [KeyError] ([None]). *)
Variable requests_get_by_key : catalog_key → option (MessageDefinition Arg bytes).
Variable responses_get_by_key : catalog_key → option (MessageDefinition bytes Val).

(** The [try]/[except KeyError] of [explain_klv]: the name of the request
    with this key, or else of the response with this key. *)
Definition key_name_of (key_hex : string) : exn + string :=
  match requests_get_by_key (KeyHex key_hex) with
  | Some d => inr (def_name d +:+ " Request")
  | None =>
      match responses_get_by_key (KeyHex key_hex) with
      | Some d => inr (def_name d +:+ " Response")
      | None => inl KeyError
      end
  end.

(** The local variables of [explain_klv] at its [return]. *)
Definition explain_klv_segments (data : bytes) : exn + klv_segments :=
  let header_hex := toolbox.bytes_to_hex (py_slice data 0 13) in
  let key_hex := toolbox.bytes_to_hex (py_slice data 13 16) in
  key_name ← key_name_of key_hex;
  '(ber, ber_size) ← toolbox.decode_ber (py_slice_from data 16);
  let ber_hex := toolbox.bytes_to_hex (py_slice data 16 (16 + Z.of_nat ber_size)) in
  let payload_start := 16 + Z.of_nat ber_size in
  let id_hex := toolbox.bytes_to_hex (py_slice data payload_start (payload_start + 4)) in
  let id := toolbox.bytes_to_int (py_slice data payload_start (payload_start + 4)) in
  let payload := py_slice_from data (payload_start + 4) in
  let short_hex := toolbox.bytes_to_hex payload in
  let short_hex :=
    if 40 <? Z.of_nat (length data)
    then substring 0 40 short_hex +:+ "..."
    else short_hex in
  mret (mk_klv_segments header_hex key_hex key_name ber_hex ber id_hex id short_hex).

Definition explain_klv (data : bytes) : exn + string :=
  s ← explain_klv_segments data; mret (klv_format s).

(** The body of the [for] loop of [parse_message], with [result] as
    accumulator.  [if elem.text_translate:] is Python truth: [None] and
    the empty dictionary are both false.  [result[elem.name]] on the
    right of the second assignment reads back the value just stored
    (lemma [od_get_set]). *)
Fixpoint parse_elements (elems : list (MessageElement bytes Val))
    (payload : bytes) (result : OrderedDict (parsed Val))
    : exn + OrderedDict (parsed Val) :=
  match elems with
  | [] => inr result
  | elem :: elems' =>
      let payload_chunk := py_slice payload (start elem) (end_ elem) in
      v ← of_option FuncError (func elem payload_chunk);
      let result := od_set (name elem) (Decoded v) result in
      let result :=
        match text_translate elem with
        | Some table =>
            if decide (table = ∅) then result
            else od_set (name elem +:+ "_text")
                   (Text (default "unknown value" (table !! v))) result
        | None => result
        end in
      parse_elements elems' payload result
  end.

Definition parse_message (message : MessageDefinition bytes Val)
    (payload : bytes) : exn + OrderedDict (parsed Val) :=
  parse_elements (elements message) payload [].

(** The body of the [for] loop of [construct_message], with
    [arg_iterator] and [payload_values] as accumulators.  [args] and
    [kwargs] are the tuple and the dictionary that Python hands to the
    body for [*args] and [**kwargs]; [element.name in kwargs.keys()]
    followed by [kwargs[element.name]] is one lookup. *)
Fixpoint construct_payload_values (elems : list (MessageElement Arg bytes))
    (args : list Arg) (kwargs : gmap string Arg)
    (arg_iterator : nat) (payload_values : list bytes) : exn + list bytes :=
  match elems with
  | [] => inr payload_values
  | element :: elems' =>
      '(arg, arg_iterator) ←
        match kwargs !! name element with
        | Some arg => inr (arg, arg_iterator)
        | None =>
            arg ← of_option IndexError (args !! arg_iterator);
            mret (arg, S arg_iterator)
        end;
      value ← of_option FuncError (func element arg);
      construct_payload_values elems' args kwargs arg_iterator
        (payload_values ++ [value])
  end.

(** The body of [construct_message], from line 104 on, with the
    parameters as Python has bound them: [kwargs] is the dictionary of
    the body (see [construct_message_call] for the call and its binding).
    [if message.elements:] only skips the loop for a schema without
    fields, for which the loop does nothing anyway. *)
Definition construct_message (message : MessageDefinition Arg bytes)
    (args : list Arg) (kwargs : gmap string Arg) : M Sock bytes :=
  id ← get_new_request_id_bytes;
  payload_values ←
    lift (construct_payload_values (elements message) args kwargs 0 []);
  let payload := id ++ concat payload_values in
  let ber := toolbox.encode_ber (Z.of_nat (length payload)) in
  mret (HEADER ++ key message ++ ber ++ payload).

(** The call [construct_message(message, *args, **named)]: the binding of
    the parameters of line 94, then the body.  A named argument
    [message] ends the call with [TypeError] before the request id is
    taken. *)
Definition construct_message_call (message : MessageDefinition Arg bytes)
    (args : list Arg) (named : gmap string Arg) : M Sock bytes :=
  kwargs ← lift (bind_kwargs "message" named);
  construct_message message args kwargs.

(** Modelled from the spec: [toolbox.bytes.ber_from_socket] reads one
    byte, then the bytes that byte announces, and returns the length,
    the size of the length field and the bytes of the length field. *)
Definition ber_from_socket : M Sock (Z * Z * bytes) :=
  first ← on_sock (sock_receive 1);
  match first with
  | [b] =>
      if Z.testbit (Z_of_byte b) 7 then
        let k := Z.land (Z_of_byte b) 127 in
        rest ← on_sock (sock_receive k);
        mret (toolbox.bytes_to_int rest, 1 + k, b :: rest)
      else mret (Z_of_byte b, 1, [b])
  | _ => lift (inl MalformedLength)
  end.

Record CommandCall : Type := mkCommandCall {
  request_definition : MessageDefinition Arg bytes;
  debug : bool;
  host : string;
  port : Z;
}.

(** The body of [CommandCall.send]; line 151 is a call of
    [construct_message] with the named arguments that [send] received. *)
Definition CommandCall_send (self : CommandCall)
    (args : list Arg) (kwargs : gmap string Arg) : M Sock Z :=
  request_bin ← construct_message_call (request_definition self) args kwargs;
  _ ← on_sock (sock_send request_bin);
  _ ← (if debug self then
         _ ← logging_name logging_bound;
         text ← lift (explain_klv request_bin);
         logging_debug ("REQUEST SENT TO " +:+ host self +:+ ":" +:+
                        pretty (port self) +:+ " : " +:+ nl +:+ text)
       else mret ());
  mret 0.

(** The call of [self.send] with the positional arguments [args] and
    the named arguments [named]: the binding of the parameters of line
    147, then the body. *)
Definition CommandCall_send_call (self : CommandCall)
    (args : list Arg) (named : gmap string Arg) : M Sock Z :=
  kwargs ← lift (bind_kwargs "self" named);
  CommandCall_send self args kwargs.

Definition CommandCall_receive (self : CommandCall)
    : M Sock (OrderedDict (parsed Val)) :=
  response_header ← on_sock (sock_receive 13);
  response_key ← on_sock (sock_receive 3);
  '(response_payload_size, ber_size, response_ber) ← ber_from_socket;
  response_id ← on_sock (sock_receive 4);
  response_payload ← on_sock (sock_receive (response_payload_size - 4));
  response_definition ←
    lift (of_option KeyError (responses_get_by_key (KeyBytes response_key)));
  _ ← (if debug self then
         let full_message :=
           response_header ++ response_key ++ response_ber ++
           response_id ++ response_payload in
         let result :=
           match last response_payload with
           | Some b => pretty (Z_of_byte b)
           | None => "---"
           end in
         _ ← logging_name logging_bound;
         text ← lift (explain_klv full_message);
         logging_debug ("RESPONSE RECEIVE FROM " +:+ host self +:+ ":" +:+
                        pretty (port self) +:+ " :" +:+ nl +:+ " RESPONSE " +:+
                        def_name response_definition +:+ " " +:+ text +:+
                        "Result : " +:+ result +:+ nl)
       else mret ());
  lift (parse_message response_definition response_payload).

(** The body of [send_and_receive]; line 185 is a call of [send]. *)
Definition CommandCall_send_and_receive (self : CommandCall)
    (args : list Arg) (kwargs : gmap string Arg)
    : M Sock (OrderedDict (parsed Val)) :=
  _ ← CommandCall_send_call self args kwargs;
  CommandCall_receive self.

(** The call of [self.send_and_receive] with [args] and [named]. *)
Definition CommandCall_send_and_receive_call (self : CommandCall)
    (args : list Arg) (named : gmap string Arg)
    : M Sock (OrderedDict (parsed Val)) :=
  kwargs ← lift (bind_kwargs "self" named);
  CommandCall_send_and_receive self args kwargs.

(** The call of the object itself with [args] and [named]: the binding
    of the parameters of [__call__] (line 188), whose body (line 192) is a
    call of [send_and_receive]. *)
Definition CommandCall_call (self : CommandCall)
    (args : list Arg) (named : gmap string Arg)
    : M Sock (OrderedDict (parsed Val)) :=
  kwargs ← lift (bind_kwargs "self" named);
  CommandCall_send_and_receive_call self args kwargs.

End Doremi.

(** ** A byte-stream socket and a sample schema *)

(** Modelled from the spec: a socket whose [receive(n)] returns exactly
    the next [n] bytes and fails on a premature close, and whose [send]
    hands the bytes over in one piece. *)
Record Stream : Type := mkStream {
  incoming : bytes;
  outgoing : list bytes;
}.

Definition stream_send (data : bytes) (s : Stream) : (exn + unit) * Stream :=
  (inr (), mkStream (incoming s) (outgoing s ++ [data])).

Definition stream_receive (n : Z) (s : Stream) : (exn + bytes) * Stream :=
  if decide (0 ≤ n ≤ Z.of_nat (length (incoming s)))
  then (inr (take (Z.to_nat n) (incoming s)),
        mkStream (drop (Z.to_nat n) (incoming s)) (outgoing s))
  else (inl TransportError, s).

#[global] Program Instance stream_transport : Transport Stream := {|
  sock_send := stream_send;
  sock_receive := stream_receive;
|}.
Next Obligation.
  intros n s data s'. unfold stream_receive. case_decide; [|done].
  intros [= <- _]. rewrite length_take. lia.
Qed.

Module Sample.

(** Fixed-width unsigned integers, as the fields of the end-to-end
    scenario of the specification ([a : int32], [b : int8]). *)
Definition int_encode (size : nat) (v : Z) : option bytes :=
  if decide (0 ≤ v < 256 ^ Z.of_nat size)
  then Some (toolbox.int_to_bytes v size) else None.

Definition int_decode (size : nat) (data : bytes) : option Z :=
  if decide (length data = size) then Some (toolbox.bytes_to_int data) else None.

Definition status_text : gmap Z string :=
  {[ 0 := "OK"; 7 := "Busy" ]}.

Definition request : MessageDefinition Z bytes := {|
  def_name := "Sample";
  key := [Byte.xaa; Byte.xbb; Byte.xcc];
  elements :=
    [ {| name := "a"; start := 0; end_ := 4; func := int_encode 4;
         text_translate := None |};
      {| name := "b"; start := 4; end_ := 5; func := int_encode 1;
         text_translate := None |} ];
|}.

Definition response : MessageDefinition bytes Z := {|
  def_name := "Sample";
  key := [Byte.xaa; Byte.xbb; Byte.xcc];
  elements :=
    [ {| name := "a"; start := 0; end_ := 4; func := int_decode 4;
         text_translate := None |};
      {| name := "b"; start := 4; end_ := 5; func := int_decode 1;
         text_translate := Some status_text |} ];
|}.

(** A response whose only field carries an empty translation table. *)
Definition empty_table_response : MessageDefinition bytes Z := {|
  def_name := "EmptyTable";
  key := [Byte.xaa; Byte.xbb; Byte.xcd];
  elements :=
    [ {| name := "b"; start := 0; end_ := 1; func := int_decode 1;
         text_translate := Some ∅ |} ];
|}.

Definition empty_table_request : MessageDefinition Z bytes := {|
  def_name := "EmptyTable";
  key := [Byte.xaa; Byte.xbb; Byte.xcd];
  elements :=
    [ {| name := "b"; start := 0; end_ := 1; func := int_encode 1;
         text_translate := None |} ];
|}.

(** A request and a response with two fields of the same name. *)
Definition twin_request : MessageDefinition Z bytes := {|
  def_name := "Twin";
  key := [Byte.xaa; Byte.xbb; Byte.xce];
  elements :=
    [ {| name := "a"; start := 0; end_ := 1; func := int_encode 1;
         text_translate := None |};
      {| name := "a"; start := 1; end_ := 2; func := int_encode 1;
         text_translate := None |} ];
|}.

Definition twin_response : MessageDefinition bytes Z := {|
  def_name := "Twin";
  key := [Byte.xaa; Byte.xbb; Byte.xce];
  elements :=
    [ {| name := "a"; start := 0; end_ := 1; func := int_decode 1;
         text_translate := None |};
      {| name := "a"; start := 1; end_ := 2; func := int_decode 1;
         text_translate := None |} ];
|}.

Definition requests_get_by_key (k : catalog_key)
    : option (MessageDefinition Z bytes) :=
  match k with
  | KeyHex s => if decide (s = "aabbcc") then Some request else None
  | KeyBytes b => if decide (b = key request) then Some request else None
  end.

Definition responses_get_by_key (k : catalog_key)
    : option (MessageDefinition bytes Z) :=
  match k with
  | KeyHex s => if decide (s = "aabbcc") then Some response else None
  | KeyBytes b => if decide (b = key response) then Some response else None
  end.

(** A frame of 41 bytes: header, key, the length field [0x18], the id 1
    and a payload of 20 bytes. *)
Definition frame41 : bytes :=
  HEADER ++ [Byte.xaa; Byte.xbb; Byte.xcc] ++ [Byte.x18] ++
  [Byte.x00; Byte.x00; Byte.x00; Byte.x01] ++ replicate 20 Byte.x2a.

(** A frame of 26 bytes, as built for [a = 42], [b = 7]. *)
Definition frame26 : bytes :=
  HEADER ++ [Byte.xaa; Byte.xbb; Byte.xcc] ++ [Byte.x09] ++
  [Byte.x00; Byte.x00; Byte.x00; Byte.x01] ++
  [Byte.x00; Byte.x00; Byte.x00; Byte.x2a; Byte.x07].

(** The module with its own imports only, which do not bind [logging],
    and the module when the star import of [toolbox.bytes] binds it. *)
Definition own_imports : bool := false.
Definition logging_imported : bool := true.

Definition world0 : World Stream := mkWorld 0 (mkStream [] []) [].

(** A world whose socket holds the response frame for [a = 42], [b = 7]
    under the correlation id [id]. *)
Definition world_reply (counter : Z) (id : bytes) : World Stream :=
  mkWorld counter
    (mkStream
       (HEADER ++ [Byte.xaa; Byte.xbb; Byte.xcc] ++ [Byte.x09] ++ id ++
        [Byte.x00; Byte.x00; Byte.x00; Byte.x2a; Byte.x07]) []) [].

Definition call (debug : bool) : CommandCall (Arg := Z) :=
  mkCommandCall request debug "10.0.0.1" 11730.

End Sample.

(** * The vocabulary of the claims *)

(** ** Request ids *)

(** The length of the cycle of the generator, and the cycle itself:
    1, 2, ..., 59999, 0. *)
Definition cycle_length : nat := Z.to_nat 60000.

Definition request_id_cycle : list Z :=
  map Z.of_nat (seq 1 (Z.to_nat 59999)) ++ [0].

(** ** Argument resolution, as the specification words it *)

Section construct_spec.
Context {Arg : Type}.
Implicit Types (elems : list (MessageElement Arg bytes)).
Implicit Types (args : list Arg) (kwargs : gmap string Arg).

(** The number of fields that have no named argument. *)
Fixpoint unnamed_count kwargs elems : nat :=
  match elems with
  | [] => 0
  | e :: elems' =>
      (if kwargs !! name e is Some _ then 0 else 1) + unnamed_count kwargs elems'
  end%nat.

(** For each field in schema order: the named argument of that name if
    there is one, otherwise the next unused positional argument, which
    is consumed; [None] when the positional arguments run out. *)
Fixpoint resolve_arguments elems (positional : list Arg) (named : gmap string Arg)
    : option (list Arg) :=
  match elems with
  | [] => Some []
  | e :: elems' =>
      match named !! name e with
      | Some v => (v ::.) <$> resolve_arguments elems' positional named
      | None =>
          match positional with
          | [] => None
          | v :: rest => (v ::.) <$> resolve_arguments elems' rest named
          end
      end
  end.

(** The value bound to the field [e] at position [i] of the schema. *)
Definition bound_value elems args kwargs (i : nat) (e : MessageElement Arg bytes)
    : option Arg :=
  match kwargs !! name e with
  | Some v => Some v
  | None => args !! unnamed_count kwargs (take i elems)
  end.

(** Each value encoded by the [func] of its field. *)
Fixpoint encode_fields elems (vs : list Arg) : option (list bytes) :=
  match elems, vs with
  | [], [] => Some []
  | e :: elems', v :: vs' => c ← func e v; (c ::.) <$> encode_fields elems' vs'
  | _, _ => None
  end.

End construct_spec.

(** ** Parsed results, as the specification words them *)

Section parse_spec.
Context {Val : Type} `{Countable Val}.
Implicit Types (elem : MessageElement bytes Val).
Implicit Types (elems : list (MessageElement bytes Val)).

(** Each field decoded from its slice of the payload, in schema order;
    [None] when a [func] raises. *)
Definition decode_fields elems (payload : bytes) : option (list Val) :=
  mapM (λ elem, func elem (py_slice payload (start elem) (end_ elem))) elems.

(** The entries of one field as the specification states them: the
    decoded value under the field name and, for a field that has a
    translation table, the table entry or ["unknown value"] under
    [<name>_text]. *)
Definition field_entries_stated elem (v : Val) : OrderedDict (parsed Val) :=
  (name elem, Decoded v) ::
  match text_translate elem with
  | Some table =>
      [(name elem +:+ "_text", Text (default "unknown value" (table !! v)))]
  | None => []
  end.

(** The same, with the [_text] entry only for a table that has entries. *)
Definition field_entries elem (v : Val) : OrderedDict (parsed Val) :=
  (name elem, Decoded v) ::
  match text_translate elem with
  | Some table =>
      if decide (table = ∅) then []
      else [(name elem +:+ "_text", Text (default "unknown value" (table !! v)))]
  | None => []
  end.

Definition entries_stated elems (vs : list Val) : OrderedDict (parsed Val) :=
  concat (zip_with field_entries_stated elems vs).

Definition entries elems (vs : list Val) : OrderedDict (parsed Val) :=
  concat (zip_with field_entries elems vs).

(** Assigning a list of entries to a dictionary, first to last. *)
Definition od_assign {V} (bs : list (string * V)) (d : OrderedDict V)
    : OrderedDict V :=
  fold_left (λ d b, od_set b.1 b.2 d) bs d.

End parse_spec.

(** ** Peer schemas *)

Section round_trip_spec.
Context {V : Type} `{Countable V}.

(** A request schema and the response schema of its peer describe the
    same fields from byte [offset] of the payload body on: the names
    agree, each decoder inverts its encoder, every encoding fills exactly
    the byte range of its field, and the ranges follow each other. *)
Fixpoint peer_schema (offset : Z) (req : list (MessageElement V bytes))
    (resp : list (MessageElement bytes V)) : Prop :=
  match req, resp with
  | [], [] => True
  | e :: req', e' :: resp' =>
      name e' = name e ∧
      start e' = offset ∧
      (∀ v c, func e v = Some c →
         func e' c = Some v ∧ end_ e' = start e' + Z.of_nat (length c)) ∧
      peer_schema (end_ e') req' resp'
  | _, _ => False
  end.

End round_trip_spec.

(** ** BER length fields *)

(** [field] is a well-formed BER length field for the length [n]. *)
Definition ber_field (n : Z) (field : bytes) : Prop :=
  match field with
  | [] => False
  | b :: rest =>
      if Z.testbit (Z_of_byte b) 7
      then Z.land (Z_of_byte b) 127 = Z.of_nat (length rest) ∧
           n = toolbox.bytes_to_int rest
      else rest = [] ∧ n = Z_of_byte b
  end.

(** ** Strings *)

(** [s] ends in [suffix]. *)
Definition ends_with (suffix s : string) : Prop := ∃ p, s = p +:+ suffix.

(** The character [c] occurs in [s]. *)
Fixpoint has_char (c : ascii) (s : string) : bool :=
  match s with
  | EmptyString => false
  | String c' s' => bool_decide (c = c') || has_char c s'
  end.

(** ** What the transport delivers *)

Section receive_spec.
Context {Sock : Type} `{Transport Sock}.

(** The transport delivers, to the five reads of [CommandCall.receive],
    the header, the key, the length field [field] announcing [size] bytes,
    the correlation id and the payload. *)
Definition delivers (w : World Sock) (hdr key : bytes) (size : Z)
    (field id payload : bytes) (w' : World Sock) : Prop :=
  ∃ w1 w2 w3 w4 ber_size,
    on_sock (sock_receive 13) w = (inr hdr, w1) ∧
    on_sock (sock_receive 3) w1 = (inr key, w2) ∧
    ber_from_socket w2 = (inr (size, ber_size, field), w3) ∧
    on_sock (sock_receive 4) w3 = (inr id, w4) ∧
    on_sock (sock_receive (size - 4)) w4 = (inr payload, w').

End receive_spec.

(** ** The request-id footprint *)

Section call_spec.
Context {Sock : Type}.


End call_spec.

(** ** Catalogs that know a key by its bytes only *)

Module SampleBytesOnly.

Definition requests_get_by_key (k : catalog_key)
    : option (MessageDefinition Z bytes) := None.

Definition responses_get_by_key (k : catalog_key)
    : option (MessageDefinition bytes Z) :=
  match k with
  | KeyHex s => None
  | KeyBytes b =>
      if decide (b = key Sample.response) then Some Sample.response else None
  end.

End SampleBytesOnly.

(** * Properties *)

(** ** Request ids *)

Section request_id_facts.
Context {Sock : Type}.
Implicit Types w : World Sock.

Lemma get_new_request_id_eq w :
  get_new_request_id w =
    (inr ((REQUEST_ID w + 1) mod 60000),
     mkWorld ((REQUEST_ID w + 1) mod 60000) (sock w) (logged w)).
Proof. reflexivity. Qed.

Lemma request_ids_from n : ∀ w,
  request_ids n w =
    (inr (map (λ i, (REQUEST_ID w + Z.of_nat (S i)) mod 60000) (seq 0 n)),
     match n with
     | O => w
     | S _ => mkWorld ((REQUEST_ID w + Z.of_nat n) mod 60000) (sock w) (logged w)
     end).
Proof.
  induction n as [|n IH]; intros w; [done|].
  cbn [request_ids]. unfold mbind, M_bind at 1.
  rewrite get_new_request_id_eq. unfold mbind, M_bind at 1.
  rewrite IH. cbn [REQUEST_ID sock logged]. unfold mret, M_ret.
  f_equal.
  - f_equal. cbn [seq map]. f_equal.
    rewrite <- seq_shift, map_map. apply map_ext. intros i.
    rewrite Zplus_mod_idemp_l. f_equal. lia.
  - destruct n as [|n]; cbn [REQUEST_ID sock logged]; f_equal.
    rewrite Zplus_mod_idemp_l. f_equal. lia.
Qed.

End request_id_facts.

Lemma ids_one_cycle (p : nat) (m : Z) :
  m = Z.of_nat (S p) →
  map (λ i, Z.of_nat (S i) mod m) (seq 0 (p + 1)) =
  map Z.of_nat (seq 1 p) ++ [0].
Proof.
  intros ->.
  rewrite seq_app, map_app. f_equal.
  - rewrite <- seq_shift, map_map. apply map_ext_in. intros i Hi.
    apply in_seq in Hi. apply Z.mod_small. lia.
  - cbn [seq map Nat.add]. f_equal. apply Z_mod_same_full.
Qed.

Lemma ids_many_cycles (q : nat) (m : Z) (k : nat) :
  m = Z.of_nat q →
  map (λ i, Z.of_nat (S i) mod m) (seq 0 (k * q)) =
  concat (replicate k (map (λ i, Z.of_nat (S i) mod m) (seq 0 q))).
Proof.
  intros ->. induction k as [|k IH]; [done|].
  cbn [Nat.mul replicate concat]. rewrite seq_app, map_app, <- IH. f_equal.
  assert (Hshift : seq (0 + q) (k * q) = map (Nat.add q) (seq 0 (k * q))).
  { rewrite Nat.add_comm. symmetry. apply (fmap_add_seq q 0 (k * q)). }
  rewrite Hshift, map_map. apply map_ext. intros i.
  replace (Z.of_nat (S (q + i))) with (Z.of_nat (S i) + 1 * Z.of_nat q) by lia.
  apply Z_mod_plus_full.
Qed.

(** C5. Starting from the counter value 0, the successive calls of the
    request-id generator return 1, 2, ..., 59999, 0 and then repeat that
    cycle of 60000 values; every call, from any counter value, sets the
    counter to its successor modulo 60000 and returns that new value,
    which lies between 0 and 59999. *)
Theorem C5_request_id_cycle {Sock} (w : World Sock) :
  REQUEST_ID w = 0 →
  (∀ w0 : World Sock, ∃ r,
      get_new_request_id w0 = (inr r, mkWorld r (sock w0) (logged w0)) ∧
      r = (REQUEST_ID w0 + 1) mod 60000 ∧ 0 ≤ r ≤ 59999) ∧
  (∀ n, request_ids n w =
          (inr (map (λ i, Z.of_nat (S i) mod 60000) (seq 0 n)),
           mkWorld (Z.of_nat n mod 60000) (sock w) (logged w))) ∧
  fst (request_ids cycle_length w) = inr request_id_cycle ∧
  (∀ k, fst (request_ids (k * cycle_length) w) =
          inr (concat (replicate k request_id_cycle))).
Proof.
  intros Hw.
  assert (Hall : ∀ n, request_ids n w =
          (inr (map (λ i, Z.of_nat (S i) mod 60000) (seq 0 n)),
           mkWorld (Z.of_nat n mod 60000) (sock w) (logged w))).
  { intros n. rewrite request_ids_from, Hw. f_equal.
    destruct n; [|done]. destruct w; cbn in *; by subst. }
  assert (Hlen : cycle_length = (Z.to_nat 59999 + 1)%nat)
    by (unfold cycle_length; lia).
  assert (Hcycle : map (λ i, Z.of_nat (S i) mod 60000) (seq 0 cycle_length)
                   = request_id_cycle).
  { rewrite Hlen. apply ids_one_cycle. lia. }
  split; [|split; [|split]].
  - intros w0. eexists. split; [apply get_new_request_id_eq|].
    split; [reflexivity|].
    pose proof (Z.mod_pos_bound (REQUEST_ID w0 + 1) 60000). lia.
  - exact Hall.
  - rewrite Hall. cbn [fst]. by rewrite Hcycle.
  - intros k. rewrite Hall. cbn [fst]. f_equal.
    rewrite <- Hcycle. apply ids_many_cycles. unfold cycle_length. lia.
Qed.

Lemma C5_request_id_cycle_witness :
  fst (request_ids 3 Sample.world0) = inr [1; 2; 3].
Proof.
  destruct (C5_request_id_cycle Sample.world0 eq_refl) as (_ & Hn & _).
  rewrite Hn. reflexivity.
Defined.

(** ** Frame construction *)

Section construct_facts.
Context {Arg : Type}.
Implicit Types (elems : list (MessageElement Arg bytes)).
Implicit Types (args : list Arg) (kwargs : gmap string Arg).

Lemma resolve_arguments_length elems : ∀ args kwargs vs,
  resolve_arguments elems args kwargs = Some vs → length vs = length elems.
Proof.
  induction elems as [|e elems IH]; intros args kwargs vs; cbn.
  - by intros [= <-].
  - destruct (kwargs !! name e) as [v|]; [|destruct args as [|v rest]; [done|]];
      intros (vs' & Hvs' & ->)%fmap_Some; cbn; f_equal; eauto.
Qed.

Lemma resolve_arguments_is_Some elems : ∀ args kwargs,
  is_Some (resolve_arguments elems args kwargs) ↔
  (unnamed_count kwargs elems ≤ length args)%nat.
Proof.
  induction elems as [|e elems IH]; intros args kwargs; cbn.
  - split; [lia|eauto].
  - destruct (kwargs !! name e) as [v|].
    + rewrite fmap_is_Some, IH. cbn. lia.
    + destruct args as [|v rest]; cbn.
      * split; [by intros [? [=]]|lia].
      * rewrite fmap_is_Some, IH. lia.
Qed.

(** The closed form of the resolution: field [i] gets its named
    argument, or else the positional argument whose index is the number
    of earlier fields without a named argument. *)
Lemma resolve_arguments_lookup elems : ∀ args kwargs vs,
  resolve_arguments elems args kwargs = Some vs →
  ∀ i e, elems !! i = Some e → vs !! i = bound_value elems args kwargs i e.
Proof.
  unfold bound_value.
  induction elems as [|e0 elems IH]; intros args kwargs vs Hres i e Hi;
    [done|].
  cbn in Hres.
  destruct (kwargs !! name e0) as [v0|] eqn:Hk0.
  - apply fmap_Some in Hres as (vs' & Hvs' & ->).
    destruct i as [|i]; cbn in Hi |- *.
    + injection Hi as <-. by rewrite Hk0.
    + rewrite Hk0. cbn. by apply IH.
  - destruct args as [|v rest]; [done|].
    apply fmap_Some in Hres as (vs' & Hvs' & ->).
    destruct i as [|i]; cbn in Hi |- *.
    + injection Hi as <-. by rewrite Hk0.
    + rewrite Hk0. cbn. by apply IH.
Qed.

Lemma encode_fields_length elems : ∀ vs cs,
  encode_fields elems vs = Some cs → length cs = length elems.
Proof.
  induction elems as [|e elems IH]; intros [|v vs] cs; cbn; try done.
  - by intros [= <-].
  - destruct (func e v) as [c|]; cbn; [|done].
    intros (cs' & Hcs' & ->)%fmap_Some. cbn. f_equal. eauto.
Qed.

(** The loop of [construct_message] when every field finds a value: it
    returns the encodings in schema order, or raises what [func] raises. *)
Lemma construct_payload_values_resolved elems : ∀ args kwargs it acc vs,
  resolve_arguments elems (drop it args) kwargs = Some vs →
  construct_payload_values elems args kwargs it acc =
    match encode_fields elems vs with
    | Some cs => inr (acc ++ cs)
    | None => inl FuncError
    end.
Proof.
  induction elems as [|e elems IH]; intros args kwargs it acc vs Hres;
    cbn in Hres |- *.
  - injection Hres as <-. cbn. by rewrite app_nil_r.
  - destruct (kwargs !! name e) as [v|] eqn:Hk.
    + apply fmap_Some in Hres as (vs' & Hvs' & ->). cbn.
      destruct (func e v) as [c|]; cbn; [|done].
      rewrite (IH _ _ _ _ _ Hvs').
      destruct (encode_fields elems vs') as [cs|]; cbn; [|done].
      by rewrite <- app_assoc.
    + destruct (drop it args) as [|v rest] eqn:Hdrop; [done|].
      apply fmap_Some in Hres as (vs' & Hvs' & ->).
      assert (Hit : args !! it = Some v).
      { rewrite <- (Nat.add_0_r it), <- lookup_drop, Hdrop. done. }
      assert (Hrest : drop (S it) args = rest).
      { rewrite (drop_S _ _ _ Hit) in Hdrop. by injection Hdrop. }
      rewrite Hit. cbn.
      destruct (func e v) as [c|]; cbn; [|done].
      rewrite <- Hrest in Hvs'. rewrite (IH _ _ _ _ _ Hvs').
      destruct (encode_fields elems vs') as [cs|]; cbn; [|done].
      by rewrite <- app_assoc.
Qed.

(** A successful run of the loop resolved every field and encoded every
    value. *)
Lemma construct_payload_values_inr elems : ∀ args kwargs it acc out,
  construct_payload_values elems args kwargs it acc = inr out →
  ∃ vs cs, resolve_arguments elems (drop it args) kwargs = Some vs ∧
           encode_fields elems vs = Some cs ∧ out = acc ++ cs.
Proof.
  induction elems as [|e elems IH]; intros args kwargs it acc out Hrun;
    cbn in Hrun |- *.
  - injection Hrun as <-. exists [], []. by rewrite app_nil_r.
  - destruct (kwargs !! name e) as [v|] eqn:Hk; cbn in Hrun.
    + destruct (func e v) as [c|] eqn:Hc; cbn in Hrun; [|done].
      apply IH in Hrun as (vs & cs & Hvs & Hcs & ->).
      exists (v :: vs), (c :: cs). rewrite Hvs. cbn. rewrite Hc. cbn.
      rewrite Hcs. cbn. by rewrite <- app_assoc.
    + destruct (args !! it) as [v|] eqn:Hit; cbn in Hrun; [|done].
      destruct (func e v) as [c|] eqn:Hc; cbn in Hrun; [|done].
      apply IH in Hrun as (vs & cs & Hvs & Hcs & ->).
      rewrite (drop_S _ _ _ Hit).
      exists (v :: vs), (c :: cs). rewrite Hvs. cbn. rewrite Hc. cbn.
      rewrite Hcs. cbn. by rewrite <- app_assoc.
Qed.

(** The loop raises [IndexError] exactly when it reaches a field with
    no named argument after the earlier fields were resolved and
    encoded and have used up every positional argument. *)
Lemma construct_payload_values_IndexError elems : ∀ args kwargs it acc,
  construct_payload_values elems args kwargs it acc = inl IndexError ↔
  ∃ pre e post vs cs,
    elems = pre ++ e :: post ∧
    resolve_arguments pre (drop it args) kwargs = Some vs ∧
    encode_fields pre vs = Some cs ∧
    kwargs !! name e = None ∧
    unnamed_count kwargs pre = length (drop it args).
Proof.
  induction elems as [|e0 elems IH]; intros args kwargs it acc.
  { split; [done|]. intros (pre & e & post & _ & _ & Hel & _).
    by destruct pre. }
  cbn [construct_payload_values]. split.
  - destruct (kwargs !! name e0) as [v|] eqn:Hk; cbn.
    + destruct (func e0 v) as [c|] eqn:Hc; cbn; [|done].
      intros (pre & e & post & vs & cs & -> & Hvs & Hcs & He & Hn)%IH.
      exists (e0 :: pre), e, post, (v :: vs), (c :: cs). cbn.
      rewrite Hk, Hvs, Hc, Hcs. done.
    + destruct (args !! it) as [v|] eqn:Hit; cbn.
      * destruct (func e0 v) as [c|] eqn:Hc; cbn; [|done].
        intros (pre & e & post & vs & cs & -> & Hvs & Hcs & He & Hn)%IH.
        exists (e0 :: pre), e, post, (v :: vs), (c :: cs). cbn.
        rewrite Hk, (drop_S _ _ _ Hit), Hvs, Hc. cbn. rewrite Hcs, Hn. done.
      * intros _. exists [], e0, elems, [], []. cbn.
        apply lookup_ge_None in Hit. rewrite drop_ge by done. done.
  - intros (pre & e & post & vs & cs & Hel & Hvs & Hcs & He & Hn).
    destruct pre as [|e1 pre]; cbn in Hel; injection Hel as <- ->.
    + rewrite He. cbn in Hn.
      assert (Hit : args !! it = None).
      { apply lookup_ge_None. rewrite length_drop in Hn. lia. }
      by rewrite Hit.
    + cbn in Hvs, Hn.
      destruct (kwargs !! name e0) as [v|] eqn:Hk; cbn.
      * apply fmap_Some in Hvs as (vs' & Hvs' & ->). cbn in Hcs.
        destruct (func e0 v) as [c|]; cbn in Hcs |- *; [|done].
        apply fmap_Some in Hcs as (cs' & Hcs' & ->).
        apply IH. by exists pre, e, post, vs', cs'.
      * destruct (drop it args) as [|v rest] eqn:Hdrop; [done|].
        apply fmap_Some in Hvs as (vs' & Hvs' & ->). cbn in Hcs.
        assert (Hit : args !! it = Some v).
        { rewrite <- (Nat.add_0_r it), <- lookup_drop, Hdrop. done. }
        rewrite (drop_S _ _ _ Hit) in Hdrop. injection Hdrop as Hrest.
        rewrite Hit. cbn.
        destruct (func e0 v) as [c|]; cbn in Hcs |- *; [|done].
        apply fmap_Some in Hcs as (cs' & Hcs' & ->).
        apply IH. exists pre, e, post, vs', cs'. rewrite Hrest.
        cbn in Hn. repeat split; try done. lia.
Qed.

(** With encoders that never raise, the loop raises [IndexError] when
    the positional arguments do not suffice. *)
Lemma construct_payload_values_unresolved elems : ∀ args kwargs it acc,
  (∀ e v, e ∈ elems → is_Some (func e v)) →
  resolve_arguments elems (drop it args) kwargs = None →
  construct_payload_values elems args kwargs it acc = inl IndexError.
Proof.
  induction elems as [|e elems IH]; intros args kwargs it acc Htot Hres;
    [done|].
  cbn in Hres |- *.
  assert (Htot' : ∀ e' v, e' ∈ elems → is_Some (func e' v)).
  { intros e' v He'. apply Htot. by right. }
  destruct (kwargs !! name e) as [v|] eqn:Hk; cbn.
  - destruct (Htot e v) as [c ->]; [by left|]. cbn.
    apply IH; [done|]. by apply fmap_None in Hres.
  - destruct (args !! it) as [v|] eqn:Hit; cbn; [|done].
    rewrite (drop_S _ _ _ Hit) in Hres. apply fmap_None in Hres.
    destruct (Htot e v) as [c ->]; [by left|]. cbn.
    by apply IH.
Qed.

Lemma encode_fields_total elems : ∀ vs,
  (∀ e v, e ∈ elems → is_Some (func e v)) →
  length vs = length elems → is_Some (encode_fields elems vs).
Proof.
  induction elems as [|e elems IH]; intros [|v vs] Htot Hlen; try done.
  cbn. destruct (Htot e v) as [c ->]; [by left|]. cbn.
  apply fmap_is_Some, IH; [|by injection Hlen].
  intros e' v' He'. apply Htot. by right.
Qed.

(** Named arguments are only ever looked up under the field names. *)
Lemma construct_payload_values_kwargs_agree elems : ∀ args kwargs kwargs' it acc,
  (∀ e, e ∈ elems → kwargs' !! name e = kwargs !! name e) →
  construct_payload_values elems args kwargs' it acc =
  construct_payload_values elems args kwargs it acc.
Proof.
  induction elems as [|e elems IH]; intros args kwargs kwargs' it acc Hag;
    [done|].
  cbn. rewrite (Hag e) by (by left).
  assert (Hag' : ∀ e', e' ∈ elems → kwargs' !! name e' = kwargs !! name e').
  { intros e' He'. apply Hag. by right. }
  destruct (kwargs !! name e) as [v|]; cbn.
  - destruct (func e v); cbn; [|done]. by apply IH.
  - destruct (args !! it) as [v|]; cbn; [|done].
    destruct (func e v); cbn; [|done]. by apply IH.
Qed.

(** Positional arguments past the last one consumed are never read. *)
Lemma construct_payload_values_surplus elems : ∀ args extra kwargs it acc,
  construct_payload_values elems args kwargs it acc ≠ inl IndexError →
  construct_payload_values elems (args ++ extra) kwargs it acc =
  construct_payload_values elems args kwargs it acc.
Proof.
  induction elems as [|e elems IH]; intros args extra kwargs it acc Hok;
    [done|].
  cbn in Hok |- *.
  destruct (kwargs !! name e) as [v|]; cbn in Hok |- *.
  - destruct (func e v); cbn in Hok |- *; [|done]. by apply IH.
  - destruct (args !! it) as [v|] eqn:Hit; cbn in Hok |- *; [|done].
    rewrite (lookup_app_l_Some _ _ _ _ Hit). cbn.
    destruct (func e v); cbn in Hok |- *; [|done]. by apply IH.
Qed.

Context {Sock : Type}.
Implicit Types (w : World Sock) (message : MessageDefinition Arg bytes).

(** [construct_message] takes a new request id first and then runs the
    loop; whatever the loop does, the id stays taken. *)
Lemma construct_message_unfold message args kwargs w :
  construct_message message args kwargs w =
    let request_id := (REQUEST_ID w + 1) mod 60000 in
    (match construct_payload_values (elements message) args kwargs 0 [] with
     | inl e => inl e
     | inr payload_values =>
         let payload := toolbox.int_to_bytes request_id 4 ++ concat payload_values in
         inr (HEADER ++ key message ++
              toolbox.encode_ber (Z.of_nat (length payload)) ++ payload)
     end,
     mkWorld request_id (sock w) (logged w)).
Proof.
  unfold construct_message, get_new_request_id_bytes.
  unfold mbind, M_bind, mret, M_ret, lift. rewrite get_new_request_id_eq.
  by destruct (construct_payload_values _ _ _ _ _).
Qed.

(** A call of [construct_message]: a named argument [message] collides
    with the first parameter and the call fails before the body runs;
    any other call runs the body on the arguments as they are. *)
Lemma construct_message_call_unfold message args
    (named : gmap string Arg) w :
  construct_message_call message args named w =
    if decide (is_Some (named !! "message")) then (inl TypeError, w)
    else construct_message message args named w.
Proof.
  unfold construct_message_call, bind_kwargs, mbind, M_bind, lift.
  by destruct (decide (is_Some (named !! "message"))).
Qed.

Lemma construct_message_call_bound message args
    (named : gmap string Arg) w :
  named !! "message" = None →
  construct_message_call message args named w =
    construct_message message args named w.
Proof.
  intros Hnone. rewrite construct_message_call_unfold.
  rewrite decide_False; [done|]. rewrite Hnone. by intros [? [=]].
Qed.

End construct_facts.

(** ** Bytes and integers *)

Lemma Z_of_byte_range b : 0 ≤ Z_of_byte b < 256.
Proof.
  unfold Z_of_byte. pose proof (Byte.to_N_bounded b). lia.
Qed.

Lemma Z_of_byte_of_Z z : Z_of_byte (byte_of_Z z) = z mod 256.
Proof.
  unfold Z_of_byte, byte_of_Z.
  pose proof (Z.mod_pos_bound z 256 eq_refl) as Hr.
  destruct (Byte.of_N (Z.to_N (z mod 256))) as [b|] eqn:Hb; cbn.
  - apply Byte.to_of_N in Hb. rewrite Hb. lia.
  - apply Byte.of_N_None_iff in Hb. lia.
Qed.

Lemma byte_of_Z_of_byte b : byte_of_Z (Z_of_byte b) = b.
Proof.
  unfold byte_of_Z. rewrite Z.mod_small by apply Z_of_byte_range.
  unfold Z_of_byte. by rewrite N2Z.id, Byte.of_to_N.
Qed.

Lemma length_int_to_bytes val size :
  length (toolbox.int_to_bytes val size) = size.
Proof. induction size as [|size IH]; cbn; [done|]. by rewrite IH. Qed.

Lemma bytes_to_int_from acc data :
  fold_left (λ a b, a * 256 + Z_of_byte b) data acc =
    acc * 256 ^ Z.of_nat (length data) + toolbox.bytes_to_int data.
Proof.
  unfold toolbox.bytes_to_int. revert acc.
  induction data as [|b data IH]; intros acc; cbn [fold_left length].
  - cbn. lia.
  - rewrite IH, (IH (0 * 256 + Z_of_byte b)).
    rewrite Nat2Z.inj_succ, Z.pow_succ_r by lia. lia.
Qed.

Lemma bytes_to_int_cons b data :
  toolbox.bytes_to_int (b :: data) =
    Z_of_byte b * 256 ^ Z.of_nat (length data) + toolbox.bytes_to_int data.
Proof.
  unfold toolbox.bytes_to_int at 1. cbn [fold_left].
  rewrite bytes_to_int_from. lia.
Qed.

(** The big-endian bytes of [val] on [size] bytes read back as [val]
    modulo [256 ^ size]. *)
Lemma bytes_to_int_to_bytes val size :
  toolbox.bytes_to_int (toolbox.int_to_bytes val size) = val mod 256 ^ Z.of_nat size.
Proof.
  induction size as [|size IH].
  - cbn. by rewrite Z.mod_1_r.
  - cbn [toolbox.int_to_bytes]. rewrite bytes_to_int_cons, IH.
    rewrite length_int_to_bytes, Z_of_byte_of_Z.
    rewrite Nat2Z.inj_succ, Z.pow_succ_r by lia.
    set (p := 256 ^ Z.of_nat size).
    assert (0 < p) by (apply Z.pow_pos_nonneg; lia).
    rewrite (Z.mul_comm 256 p), Z.rem_mul_r by lia. lia.
Qed.

Lemma bytes_to_int_to_bytes_small val size :
  0 ≤ val < 256 ^ Z.of_nat size →
  toolbox.bytes_to_int (toolbox.int_to_bytes val size) = val.
Proof. intros. rewrite bytes_to_int_to_bytes. by apply Z.mod_small. Qed.

(** ** Claims about [construct_message] *)

(** C1. For every schema and every argument list whose fields all find a
    value and encode, [construct_message] returns exactly
    Header ‖ key ‖ BER(len(payload)) ‖ payload, where payload is the
    4-byte big-endian request id followed by the field encodings in
    schema order with nothing between them, and Header is the 13 bytes
    06 0E 2B 34 02 05 01 0A 0E 10 01 01 01. *)
Theorem C1_construct_message_frame {Arg Sock : Type}
    (message : MessageDefinition Arg bytes) (args : list Arg)
    (kwargs : gmap string Arg) (w : World Sock) (vs : list Arg)
    (chunks : list bytes) :
  resolve_arguments (elements message) args kwargs = Some vs →
  encode_fields (elements message) vs = Some chunks →
  let request_id := (REQUEST_ID w + 1) mod 60000 in
  let correlation_id := toolbox.int_to_bytes request_id 4 in
  let payload := correlation_id ++ concat chunks in
  construct_message message args kwargs w =
    (inr (HEADER ++ key message ++
          toolbox.encode_ber (Z.of_nat (length payload)) ++ payload),
     mkWorld request_id (sock w) (logged w)) ∧
  length correlation_id = 4%nat ∧
  toolbox.bytes_to_int correlation_id = request_id ∧
  length HEADER = 13%nat ∧
  Z_of_byte <$> HEADER =
    [0x06; 0x0E; 0x2B; 0x34; 0x02; 0x05; 0x01; 0x0A; 0x0E; 0x10; 0x01; 0x01; 0x01].
Proof.
  intros Hvs Hcs request_id correlation_id payload.
  split; [|split; [|split; [|split]]].
  - rewrite construct_message_unfold. cbn zeta.
    rewrite (construct_payload_values_resolved _ _ _ 0%nat [] vs) by done.
    by rewrite Hcs.
  - apply length_int_to_bytes.
  - apply bytes_to_int_to_bytes_small.
    pose proof (Z.mod_pos_bound (REQUEST_ID w + 1) 60000 eq_refl).
    subst request_id. change (256 ^ Z.of_nat 4) with 4294967296. lia.
  - reflexivity.
  - reflexivity.
Qed.

Lemma C1_construct_message_frame_witness :
  fst (construct_message Sample.request [42] {[ "b" := 7 ]} Sample.world0) =
    inr (HEADER ++ [Byte.xaa; Byte.xbb; Byte.xcc] ++ [Byte.x09] ++
         [Byte.x00; Byte.x00; Byte.x00; Byte.x01] ++
         [Byte.x00; Byte.x00; Byte.x00; Byte.x2a] ++ [Byte.x07]).
Proof.
  pose proof (C1_construct_message_frame Sample.request [42] {[ "b" := 7 ]}
                Sample.world0 [42; 7]
                [[Byte.x00; Byte.x00; Byte.x00; Byte.x2a]; [Byte.x07]]
                eq_refl eq_refl) as [Hrun _].
  rewrite Hrun. reflexivity.
Defined.

(** Argument resolution in the body of [construct_message]. *)
Lemma construct_message_resolution {Arg Sock : Type}
    (message : MessageDefinition Arg bytes) (args : list Arg)
    (kwargs : gmap string Arg) (w : World Sock) :
  (∀ data, fst (construct_message message args kwargs w) = inr data →
     ∃ vs chunks,
       length vs = length (elements message) ∧
       (∀ i e, elements message !! i = Some e →
          vs !! i = match kwargs !! name e with
                    | Some v => Some v
                    | None => args !! unnamed_count kwargs (take i (elements message))
                    end) ∧
       encode_fields (elements message) vs = Some chunks ∧
       data = HEADER ++ key message ++
              toolbox.encode_ber (Z.of_nat (4 + length (concat chunks))) ++
              toolbox.int_to_bytes ((REQUEST_ID w + 1) mod 60000) 4 ++
              concat chunks) ∧
  (fst (construct_message message args kwargs w) = inl MissingArgument ↔
     ∃ pre e post vs chunks,
       elements message = pre ++ e :: post ∧
       resolve_arguments pre args kwargs = Some vs ∧
       encode_fields pre vs = Some chunks ∧
       kwargs !! name e = None ∧
       unnamed_count kwargs pre = length args) ∧
  ((∀ e v, e ∈ elements message → is_Some (func e v)) →
     (fst (construct_message message args kwargs w) = inl MissingArgument ↔
        (length args < unnamed_count kwargs (elements message))%nat) ∧
     ((unnamed_count kwargs (elements message) ≤ length args)%nat →
        ∃ data, fst (construct_message message args kwargs w) = inr data)).
Proof.
  rewrite construct_message_unfold. cbn zeta. cbn [fst].
  split; [|split].
  - intros data Hrun.
    destruct (construct_payload_values _ _ _ _ _) as [|pvs] eqn:Hloop; [done|].
    apply construct_payload_values_inr in Hloop as (vs & cs & Hvs & Hcs & ->).
    cbn [drop app] in Hvs. exists vs, cs. split; [|split; [|split]].
    + by eapply resolve_arguments_length.
    + intros i e Hi. by rewrite (resolve_arguments_lookup _ _ _ _ Hvs i e Hi).
    + done.
    + injection Hrun as <-. reflexivity.
  - pose proof (construct_payload_values_IndexError
                  (elements message) args kwargs 0 []) as Hchar.
    cbn [drop] in Hchar. rewrite <- Hchar.
    destruct (construct_payload_values _ _ _ _ _);
      split; intros [=]; by subst.
  - intros Htot.
    destruct (resolve_arguments (elements message) args kwargs) as [vs|] eqn:Hvs.
    + assert (Hsome : (unnamed_count kwargs (elements message) ≤ length args)%nat).
      { apply resolve_arguments_is_Some. eauto. }
      rewrite (construct_payload_values_resolved _ _ _ 0%nat [] vs) by done.
      destruct (encode_fields_total (elements message) vs Htot) as [cs ->].
      { by eapply resolve_arguments_length. }
      split; [split; [done|lia]|eauto].
    + assert (Hnone : ¬ (unnamed_count kwargs (elements message) ≤ length args)%nat).
      { rewrite <- resolve_arguments_is_Some, Hvs. by intros [? [=]]. }
      rewrite construct_payload_values_unresolved by done.
      split; [split; [lia|done]|lia].
Qed.

(** C3 (amended). A call of [construct_message] that passes a named
    argument [message] fails with [TypeError] before any field is
    resolved and before a request id is taken.  In every other call each
    field, in schema order, gets the named argument of its name when
    there is one and otherwise the next unused positional argument; the
    call fails with [MissingArgument] exactly when it reaches a field
    without a named argument after the earlier fields, all resolved and
    encoded, have used every positional argument.  With encoders that
    never raise this is exactly when there are fewer positional
    arguments than fields without a named argument. *)
Theorem C3_argument_resolution {Arg Sock : Type}
    (message : MessageDefinition Arg bytes) (args : list Arg)
    (named : gmap string Arg) (w : World Sock) :
  (* a named argument [message] *)
  (is_Some (named !! "message") →
     construct_message_call message args named w = (inl TypeError, w)) ∧
  (* a successful call bound every field as described *)
  (∀ data, fst (construct_message_call message args named w) = inr data →
     named !! "message" = None ∧
     ∃ vs chunks,
       length vs = length (elements message) ∧
       (∀ i e, elements message !! i = Some e →
          vs !! i = match named !! name e with
                    | Some v => Some v
                    | None => args !! unnamed_count named (take i (elements message))
                    end) ∧
       encode_fields (elements message) vs = Some chunks ∧
       data = HEADER ++ key message ++
              toolbox.encode_ber (Z.of_nat (4 + length (concat chunks))) ++
              toolbox.int_to_bytes ((REQUEST_ID w + 1) mod 60000) 4 ++
              concat chunks) ∧
  (* the failure with [MissingArgument] *)
  (fst (construct_message_call message args named w) = inl MissingArgument ↔
     named !! "message" = None ∧
     ∃ pre e post vs chunks,
       elements message = pre ++ e :: post ∧
       resolve_arguments pre args named = Some vs ∧
       encode_fields pre vs = Some chunks ∧
       named !! name e = None ∧
       unnamed_count named pre = length args) ∧
  (* the same with encoders that never raise *)
  ((∀ e v, e ∈ elements message → is_Some (func e v)) →
   named !! "message" = None →
     (fst (construct_message_call message args named w) = inl MissingArgument ↔
        (length args < unnamed_count named (elements message))%nat) ∧
     ((unnamed_count named (elements message) ≤ length args)%nat →
        ∃ data, fst (construct_message_call message args named w) = inr data)).
Proof.
  destruct (construct_message_resolution message args named w)
    as (Hbound & Hmiss & Htotal).
  rewrite construct_message_call_unfold.
  destruct (decide (is_Some (named !! "message"))) as [Hsome|Hnone].
  - split; [done|]. split; [done|]. cbn [fst].
    assert (Hne : named !! "message" ≠ None) by (by destruct Hsome as [? ->]).
    split; [|done]. split; [done|]. by intros [? _].
  - assert (Hnot : named !! "message" = None).
    { destruct (named !! "message") eqn:Hlook; [|done].
      destruct Hnone. eauto. }
    split; [done|]. split; [|split].
    + intros data Hrun. split; [done|]. by apply Hbound.
    + rewrite Hmiss. split; [by intros ?|by intros [_ ?]].
    + intros Htot _. by apply Htotal.
Qed.

Lemma C3_argument_resolution_witness :
  fst (construct_message_call Sample.request [42] ∅ Sample.world0) =
    inl MissingArgument.
Proof.
  destruct (C3_argument_resolution Sample.request [42] ∅ Sample.world0)
    as (_ & _ & Hmiss & _).
  apply Hmiss. split; [reflexivity|].
  exists [{| name := "a"; start := 0; end_ := 4; func := Sample.int_encode 4;
             text_translate := None |}],
         {| name := "b"; start := 4; end_ := 5; func := Sample.int_encode 1;
            text_translate := None |},
         [], [42], [[Byte.x00; Byte.x00; Byte.x00; Byte.x2a]].
  repeat split; reflexivity.
Defined.

(** C3 as stated fails in two ways.  A call with one positional
    argument for two fields runs out of positional arguments, yet it
    fails with the error of the first field's encoder when that encoder
    raises on the value, since each field is encoded as soon as it is
    resolved; and the same shortage under a named argument [message]
    fails with [TypeError], since the call never reaches the body. *)
Lemma C3_counterexample :
  ((length [(2 ^ 40)%Z] < unnamed_count (∅ : gmap string Z)
                            (elements Sample.request))%nat ∧
   construct_message_call Sample.request [2 ^ 40] ∅ Sample.world0 =
     (inl FuncError, mkWorld 1 (mkStream [] []) [])) ∧
  ((length [42%Z] < unnamed_count ({[ "message" := 9%Z ]} : gmap string Z)
                      (elements Sample.request))%nat ∧
   construct_message_call Sample.request [42] {[ "message" := 9 ]}
       Sample.world0 =
     (inl TypeError, Sample.world0)).
Proof.
  split; (split; [vm_compute; lia|reflexivity]).
Qed.

(** C9. Whenever [construct_message] fails, because the positional
    arguments ran out or because the [func] of a field raised, the request
    id counter has been advanced by one all the same: the id is taken
    before any argument is looked at and is not given back. *)
Theorem C9_failed_construction_consumes_id {Arg Sock : Type}
    (message : MessageDefinition Arg bytes) (args : list Arg)
    (kwargs : gmap string Arg) (w w' : World Sock) (e : exn) :
  construct_message message args kwargs w = (inl e, w') →
  (e = MissingArgument ∨ e = FuncError) ∧
  REQUEST_ID w' = (REQUEST_ID w + 1) mod 60000 ∧
  w' = snd (get_new_request_id w).
Proof.
  rewrite construct_message_unfold. cbn zeta.
  destruct (construct_payload_values _ _ _ _ _) as [e'|pvs] eqn:Hloop; [|done].
  intros [= -> <-]. split; [|done].
  clear -Hloop. revert Hloop. generalize 0%nat, (@nil bytes).
  induction (elements message) as [|el elems IH]; intros it acc; cbn; [done|].
  destruct (kwargs !! name el) as [v|]; cbn.
  - destruct (func el v); cbn; [apply IH|]. intros [= <-]. by right.
  - destruct (args !! it) as [v|]; cbn; [|intros [= <-]; by left].
    destruct (func el v); cbn; [apply IH|]. intros [= <-]. by right.
Qed.

Lemma C9_failed_construction_consumes_id_witness :
  construct_message Sample.request [42] ∅ Sample.world0 =
    (inl MissingArgument, mkWorld 1 (mkStream [] []) []) ∧
  REQUEST_ID (mkWorld (Sock := Stream) 1 (mkStream [] []) []) =
    (REQUEST_ID Sample.world0 + 1) mod 60000.
Proof.
  assert (Hrun : construct_message Sample.request [42] ∅ Sample.world0 =
                   (inl MissingArgument, mkWorld 1 (mkStream [] []) []))
    by reflexivity.
  split; [exact Hrun|].
  apply (C9_failed_construction_consumes_id _ _ _ _ _ _ Hrun).
Defined.

(** C10 (amended). Surplus arguments are ignored, one named argument
    apart: a named argument [message] collides with the first parameter
    of [construct_message] and fails the call with [TypeError].  Named
    arguments under other names that are not field names are ignored,
    positional arguments past the ones the fields consume are ignored,
    and the frame depends on the arguments only through the values bound
    to the fields. *)
Theorem C10_surplus_arguments_ignored {Arg Sock : Type}
    (message : MessageDefinition Arg bytes) (args : list Arg)
    (named : gmap string Arg) (w : World Sock) :
  (∀ extra_named,
     (∀ e, e ∈ elements message → extra_named !! name e = None) →
     extra_named !! "message" = None →
     construct_message_call message args (named ∪ extra_named) w =
     construct_message_call message args named w) ∧
  (∀ extra_named,
     is_Some (extra_named !! "message") →
     construct_message_call message args (named ∪ extra_named) w =
       (inl TypeError, w)) ∧
  (∀ extra_positional,
     fst (construct_message_call message args named w) ≠ inl MissingArgument →
     construct_message_call message (args ++ extra_positional) named w =
     construct_message_call message args named w) ∧
  (∀ args' named' vs,
     named !! "message" = None → named' !! "message" = None →
     resolve_arguments (elements message) args named = Some vs →
     resolve_arguments (elements message) args' named' = Some vs →
     construct_message_call message args' named' w =
     construct_message_call message args named w).
Proof.
  split; [|split; [|split]].
  - intros extra_named Hnone Hmessage. rewrite !construct_message_call_unfold.
    destruct (decide (is_Some (named !! "message"))) as [Hsome|Hnot].
    + rewrite decide_True; [done|]. apply lookup_union_is_Some. by left.
    + rewrite decide_False.
      2:{ rewrite lookup_union_is_Some, Hmessage. intros [?|[? [=]]]. done. }
      rewrite !construct_message_unfold. cbn zeta.
      rewrite (construct_payload_values_kwargs_agree _ _ named); [done|].
      intros e He. by apply lookup_union_l, Hnone.
  - intros extra_named Hsome. rewrite construct_message_call_unfold.
    rewrite decide_True; [done|]. apply lookup_union_is_Some. by right.
  - intros extra_positional. rewrite !construct_message_call_unfold.
    destruct (decide (is_Some (named !! "message"))); [done|].
    rewrite !construct_message_unfold. cbn zeta. cbn [fst]. intros Hok.
    rewrite construct_payload_values_surplus; [done|].
    by destruct (construct_payload_values _ _ _ _ _); [intros [= ->]|].
  - intros args' named' vs Hmessage Hmessage' Hvs Hvs'.
    rewrite !construct_message_call_bound by done.
    rewrite !construct_message_unfold. cbn zeta.
    rewrite (construct_payload_values_resolved _ args _ 0%nat [] vs) by done.
    by rewrite (construct_payload_values_resolved _ args' _ 0%nat [] vs).
Qed.

Lemma C10_surplus_arguments_ignored_witness :
  construct_message_call Sample.request ([42] ++ [5; 6])
    ({[ "b" := 7 ]} ∪ {[ "c" := 9 ]}) Sample.world0 =
  construct_message_call Sample.request [42] {[ "b" := 7 ]} Sample.world0.
Proof.
  destruct (C10_surplus_arguments_ignored Sample.request ([42] ++ [5; 6])
              {[ "b" := 7 ]} Sample.world0) as (Hnamed & _ & _ & _).
  destruct (C10_surplus_arguments_ignored Sample.request [42]
              {[ "b" := 7 ]} Sample.world0) as (_ & _ & Hpositional & _).
  rewrite Hnamed.
  - apply Hpositional. discriminate.
  - intros e He. repeat (apply elem_of_cons in He as [->|He]; [reflexivity|]).
    by apply elem_of_nil in He.
  - reflexivity.
Defined.

(** C10 as stated fails on one surplus argument.  [message] is the name
    of no field of the schema, and the call with two positional
    arguments returns its frame; the same call with the surplus named
    argument [message] fails with [TypeError], before the request id is
    taken. *)
Lemma C10_counterexample :
  (∀ e, e ∈ elements Sample.request →
     ({[ "message" := 9 ]} : gmap string Z) !! name e = None) ∧
  fst (construct_message_call Sample.request [42; 7] ∅ Sample.world0) =
    inr Sample.frame26 ∧
  construct_message_call Sample.request [42; 7] (∅ ∪ {[ "message" := 9 ]})
      Sample.world0 =
    (inl TypeError, Sample.world0).
Proof.
  split; [|split; reflexivity].
  intros e He. repeat (apply elem_of_cons in He as [->|He]; [reflexivity|]).
  by apply elem_of_nil in He.
Qed.

(** ** Parsing *)

Section parse_facts.
Context {Val : Type} `{Countable Val}.
Implicit Types (elem : MessageElement bytes Val).
Implicit Types (elems : list (MessageElement bytes Val)).

Lemma od_get_set {V} (k : string) (v : V) (d : OrderedDict V) :
  od_get k (od_set k v d) = Some v.
Proof.
  induction d as [|[k' v'] d IH]; cbn.
  - by rewrite decide_True.
  - destruct (decide (k = k')) as [->|Hne]; cbn.
    + by rewrite decide_True.
    + by rewrite decide_False.
Qed.

Lemma od_set_fresh {V} (k : string) (v : V) (d : OrderedDict V) :
  k ∉ d.*1 → od_set k v d = d ++ [(k, v)].
Proof.
  induction d as [|[k' v'] d IH]; cbn; [done|].
  intros [Hne Hd]%not_elem_of_cons.
  rewrite decide_False by done. by rewrite IH.
Qed.

Lemma od_assign_app {V} (bs1 bs2 : list (string * V)) (d : OrderedDict V) :
  od_assign (bs1 ++ bs2) d = od_assign bs2 (od_assign bs1 d).
Proof. apply fold_left_app. Qed.

(** Assigning entries with distinct new keys appends them in order. *)
Lemma od_assign_fresh {V} (bs : list (string * V)) : ∀ d : OrderedDict V,
  NoDup ((d ++ bs).*1) → od_assign bs d = d ++ bs.
Proof.
  induction bs as [|[k v] bs IH]; intros d Hnd; cbn.
  - by rewrite app_nil_r.
  - change (od_assign bs (od_set k v d) = d ++ (k, v) :: bs).
    rewrite od_set_fresh.
    + rewrite IH; rewrite <- app_assoc; done.
    + rewrite fmap_app in Hnd. apply NoDup_app in Hnd as (_ & Hdis & _).
      intros Hin. apply (Hdis k Hin). left.
Qed.

(** The loop of [parse_message] assigns the entries of each field in
    schema order, or raises what a [func] raises. *)
Lemma parse_elements_entries elems payload : ∀ result,
  parse_elements elems payload result =
    match decode_fields elems payload with
    | Some vs => inr (od_assign (entries elems vs) result)
    | None => inl FuncError
    end.
Proof.
  unfold decode_fields, entries.
  induction elems as [|elem elems IH]; intros result; [done|].
  cbn [parse_elements mapM].
  destruct (func elem _) as [v|]; cbn; [|done].
  rewrite IH.
  destruct (mapM _ elems) as [vs|]; cbn; [|done].
  f_equal. unfold od_assign.
  destruct (text_translate elem) as [table|]; [|done].
  by destruct (decide (table = ∅)).
Qed.

Lemma decode_fields_length elems payload vs :
  decode_fields elems payload = Some vs → length vs = length elems.
Proof. intros Hvs. symmetry. by eapply length_mapM. Qed.

End parse_facts.

(** C4 (amended). [parse_message] handles the fields in schema order: it
    assigns to each field name the [func] of the slice
    [payload[start:end]] and, exactly for the fields whose translation
    table is present and not empty, assigns to [<name>_text] the table
    entry of the decoded value, or ["unknown value"] when the value is not
    a key of the table.  The result holds these entries in that order
    (when the keys are distinct it is exactly the list of the entries). *)
Theorem C4_parse_message_entries {Val : Type} `{Countable Val}
    (message : MessageDefinition bytes Val) (payload : bytes) :
  parse_message message payload =
    match decode_fields (elements message) payload with
    | Some vs => inr (od_assign (entries (elements message) vs) [])
    | None => inl FuncError
    end ∧
  (∀ vs, decode_fields (elements message) payload = Some vs →
     length vs = length (elements message) ∧
     (∀ i elem, elements message !! i = Some elem →
        func elem (py_slice payload (start elem) (end_ elem)) = vs !! i) ∧
     (NoDup (entries (elements message) vs).*1 →
        parse_message message payload = inr (entries (elements message) vs))).
Proof.
  unfold parse_message. rewrite parse_elements_entries. split; [done|].
  intros vs Hvs. rewrite Hvs. split; [|split].
  - by eapply decode_fields_length.
  - intros i elem Hi. apply mapM_Some in Hvs.
    destruct (Forall2_lookup_l _ _ _ _ _ Hvs Hi) as (v & -> & ->). done.
  - intros Hnd. by rewrite od_assign_fresh.
Qed.

Lemma C4_parse_message_entries_witness :
  parse_message Sample.response
    [Byte.x00; Byte.x00; Byte.x00; Byte.x2a; Byte.x07] =
  inr [("a", Decoded 42); ("b", Decoded 7); ("b_text", Text "Busy")].
Proof.
  destruct (C4_parse_message_entries Sample.response
              [Byte.x00; Byte.x00; Byte.x00; Byte.x2a; Byte.x07])
    as [_ Hentries].
  destruct (Hentries [42; 7] eq_refl) as (_ & _ & Hnodup).
  apply Hnodup. apply (bool_decide_unpack _). vm_compute. exact I.
Defined.

(** C4 as stated fails for a field whose translation table is the empty
    dictionary: the table is there, the decoded value is not one of its
    keys, and yet the result has no [b_text] entry. *)
Lemma C4_counterexample :
  parse_message Sample.empty_table_response [Byte.x07] = inr [("b", Decoded 7)] ∧
  decode_fields (elements Sample.empty_table_response) [Byte.x07] = Some [7] ∧
  entries_stated (elements Sample.empty_table_response) [7] =
    [("b", Decoded 7); ("b_text", Text "unknown value")].
Proof. repeat split; reflexivity. Qed.

(** ** The round trip *)

Lemma py_slice_middle {A} (pre mid post : list A) (lo hi : Z) :
  lo = Z.of_nat (length pre) →
  hi = lo + Z.of_nat (length mid) →
  py_slice (pre ++ mid ++ post) lo hi = mid.
Proof.
  intros -> ->. unfold py_slice, slice_index.
  rewrite !length_app.
  destruct (Z.ltb_spec (Z.of_nat (length pre)) 0); [lia|].
  destruct (Z.ltb_spec (Z.of_nat (length pre) + Z.of_nat (length mid)) 0); [lia|].
  rewrite !Z.max_r, !Z.min_r by lia.
  rewrite Nat2Z.id, drop_app_length.
  replace (Z.to_nat _) with (length mid) by lia.
  apply take_app_length.
Qed.

Section round_trip_facts.
Context {V : Type} `{Countable V}.

(** Decoding the concatenated encodings at the offsets of the response
    schema gives the encoded values back. *)
Lemma decode_fields_encoded (req : list (MessageElement V bytes)) :
  ∀ (resp : list (MessageElement bytes V)) vs cs (pre : bytes),
    peer_schema (Z.of_nat (length pre)) req resp →
    encode_fields req vs = Some cs →
    decode_fields resp (pre ++ concat cs) = Some vs.
Proof.
  unfold decode_fields.
  induction req as [|e req IH]; intros [|e' resp] [|v vs] cs pre Hpeer Henc;
    cbn in Hpeer, Henc; try done.
  destruct Hpeer as (Hname & Hstart & Hinv & Hpeer).
  destruct (func e v) as [c|] eqn:Hc; cbn in Henc; [|done].
  apply fmap_Some in Henc as (cs' & Hcs' & ->).
  destruct (Hinv v c Hc) as [Hdec Hend].
  cbn [mapM concat].
  rewrite (py_slice_middle pre c (concat cs')) by lia.
  rewrite Hdec. cbn.
  assert (Hnext : end_ e' = Z.of_nat (length (pre ++ c))).
  { rewrite length_app. lia. }
  rewrite Hnext in Hpeer.
  pose proof (IH resp vs cs' (pre ++ c) Hpeer Hcs') as Hrest.
  rewrite <- app_assoc in Hrest. rewrite Hrest. done.
Qed.

End round_trip_facts.

(** C2 (amended). For a request schema and a peer response schema whose
    decoders invert the encoders and whose byte ranges are the ranges the
    encodings fill, parsing the payload body of a frame built by
    [construct_message] gives back the values bound to the fields, in
    field order; when the keys of the result are distinct the result is
    exactly these values, each followed by its [<name>_text] entry if and
    only if the field has a translation table with at least one entry. *)
Theorem C2_frame_round_trip {V Sock : Type} `{Countable V}
    (request : MessageDefinition V bytes) (response : MessageDefinition bytes V)
    (args : list V) (kwargs : gmap string V) (w : World Sock) (data : bytes) :
  peer_schema 0 (elements request) (elements response) →
  fst (construct_message request args kwargs w) = inr data →
  ∃ vs body,
    resolve_arguments (elements request) args kwargs = Some vs ∧
    data = HEADER ++ key request ++
           toolbox.encode_ber (Z.of_nat (4 + length body)) ++
           toolbox.int_to_bytes ((REQUEST_ID w + 1) mod 60000) 4 ++ body ∧
    decode_fields (elements response) body = Some vs ∧
    parse_message response body =
      inr (od_assign (entries (elements response) vs) []) ∧
    (NoDup (entries (elements response) vs).*1 →
       parse_message response body = inr (entries (elements response) vs)).
Proof.
  intros Hpeer. rewrite construct_message_unfold. cbn zeta. cbn [fst].
  destruct (construct_payload_values _ _ _ _ _) as [|pvs] eqn:Hloop; [done|].
  intros [= <-].
  apply construct_payload_values_inr in Hloop as (vs & cs & Hvs & Hcs & ->).
  exists vs, (concat cs).
  pose proof (decode_fields_encoded _ _ _ _ [] Hpeer Hcs) as Hdec.
  cbn [app] in Hdec.
  assert (Hparse : parse_message response (concat cs) =
                   inr (od_assign (entries (elements response) vs) [])).
  { unfold parse_message. by rewrite parse_elements_entries, Hdec. }
  split; [done|]. split; [reflexivity|]. split; [done|]. split; [done|].
  intros Hnd. rewrite Hparse. by rewrite od_assign_fresh.
Qed.

Lemma int_codec (size : nat) (v : Z) (c : bytes) :
  Sample.int_encode size v = Some c →
  Sample.int_decode size c = Some v ∧ length c = size.
Proof.
  unfold Sample.int_encode, Sample.int_decode.
  destruct (decide (0 ≤ v < 256 ^ Z.of_nat size)) as [Hv|]; [|done].
  intros [= <-]. rewrite length_int_to_bytes, decide_True by done.
  by rewrite bytes_to_int_to_bytes_small.
Qed.

Lemma sample_peer_schema :
  peer_schema 0 (elements Sample.request) (elements Sample.response) ∧
  peer_schema 0 (elements Sample.twin_request) (elements Sample.twin_response) ∧
  peer_schema 0 (elements Sample.empty_table_request)
    (elements Sample.empty_table_response).
Proof.
  cbn. repeat split; try done;
    match goal with
    | Henc : Sample.int_encode _ _ = Some _ |- _ =>
        apply int_codec in Henc as [Hdec Hlen]
    end; cbn; rewrite ?Hlen; done.
Qed.

Lemma C2_frame_round_trip_witness :
  ∃ vs body,
    resolve_arguments (elements Sample.request) [42] {[ "b" := 7 ]} = Some vs ∧
    HEADER ++ [Byte.xaa; Byte.xbb; Byte.xcc] ++ [Byte.x09] ++
      [Byte.x00; Byte.x00; Byte.x00; Byte.x01] ++
      [Byte.x00; Byte.x00; Byte.x00; Byte.x2a; Byte.x07] =
    HEADER ++ key Sample.request ++
      toolbox.encode_ber (Z.of_nat (4 + length body)) ++
      toolbox.int_to_bytes ((REQUEST_ID Sample.world0 + 1) mod 60000) 4 ++ body ∧
    decode_fields (elements Sample.response) body = Some vs ∧
    parse_message Sample.response body =
      inr (od_assign (entries (elements Sample.response) vs) []) ∧
    (NoDup (entries (elements Sample.response) vs).*1 →
       parse_message Sample.response body =
         inr (entries (elements Sample.response) vs)).
Proof.
  apply (C2_frame_round_trip Sample.request Sample.response [42]
           {[ "b" := 7 ]} Sample.world0).
  - apply sample_peer_schema.
  - reflexivity.
Defined.

(** C2 as stated fails in two ways.  With two fields of the same name the
    result keeps one entry, holding the second value, so the first value
    is not reproduced; and a field whose translation table is the empty
    dictionary gets no [_text] entry. *)
Lemma C2_counterexample :
  (peer_schema 0 (elements Sample.twin_request) (elements Sample.twin_response) ∧
   fst (construct_message Sample.twin_request [1; 2] ∅ Sample.world0) =
     inr (HEADER ++ key Sample.twin_request ++ [Byte.x06] ++
          [Byte.x00; Byte.x00; Byte.x00; Byte.x01] ++ [Byte.x01; Byte.x02]) ∧
   parse_message Sample.twin_response [Byte.x01; Byte.x02] =
     inr [("a", Decoded 2)] ∧
   entries_stated (elements Sample.twin_response) [1; 2] =
     [("a", Decoded 1); ("a", Decoded 2)]) ∧
  (peer_schema 0 (elements Sample.empty_table_request)
     (elements Sample.empty_table_response) ∧
   fst (construct_message Sample.empty_table_request [7] ∅ Sample.world0) =
     inr (HEADER ++ key Sample.empty_table_request ++ [Byte.x05] ++
          [Byte.x00; Byte.x00; Byte.x00; Byte.x01] ++ [Byte.x07]) ∧
   parse_message Sample.empty_table_response [Byte.x07] =
     inr [("b", Decoded 7)] ∧
   entries_stated (elements Sample.empty_table_response) [7] =
     [("b", Decoded 7); ("b_text", Text "unknown value")]).
Proof.
  pose proof sample_peer_schema as (_ & Htwin & Hempty).
  split.
  - split; [exact Htwin|]. split; [reflexivity|]. split; reflexivity.
  - split; [exact Hempty|]. split; [reflexivity|]. split; reflexivity.
Qed.

(** ** BER length fields *)

Lemma decode_ber_field n field tail :
  ber_field n field →
  toolbox.decode_ber (field ++ tail) = inr (n, length field).
Proof.
  destruct field as [|b rest]; [done|].
  unfold ber_field, toolbox.decode_ber. cbn [app length].
  destruct (Z.testbit (Z_of_byte b) 7).
  - intros [Hk ->]. rewrite Hk, Nat2Z.id.
    rewrite decide_True by (rewrite length_app; lia).
    by rewrite take_app_length.
  - by intros [-> ->].
Qed.

Lemma lor_128_small k : 0 ≤ k < 128 → Z.lor 128 k = 128 + k.
Proof.
  intros Hk.
  assert (Hall : Forall (λ k, Z.lor 128 k = 128 + k) (seqZ 0 128)).
  { apply (bool_decide_unpack _). vm_compute. exact I. }
  rewrite Forall_forall in Hall. apply Hall, elem_of_seqZ. lia.
Qed.

Lemma high_bit_byte x :
  0 ≤ x < 256 → Z.testbit x 7 = bool_decide (128 ≤ x).
Proof.
  intros Hx.
  assert (Hall : Forall (λ x, Z.testbit x 7 = bool_decide (128 ≤ x)) (seqZ 0 256)).
  { apply (bool_decide_unpack _). vm_compute. exact I. }
  rewrite Forall_forall in Hall. apply Hall, elem_of_seqZ. lia.
Qed.

Lemma byte_width_fits n :
  0 < n → n < 256 ^ Z.of_nat (toolbox.byte_width n).
Proof.
  intros Hn. unfold toolbox.byte_width.
  pose proof (Z.log2_nonneg n) as Hlog.
  pose proof (Z.log2_spec n Hn) as [_ Hlt].
  pose proof (Z.div_pos (Z.log2 n) 8 Hlog eq_refl) as Hdiv.
  rewrite Z2Nat.id by lia.
  change 256 with (2 ^ 8). rewrite <- Z.pow_mul_r by lia.
  eapply Z.lt_le_trans; [exact Hlt|].
  apply Z.pow_le_mono_r; [lia|].
  pose proof (Z.mod_pos_bound (Z.log2 n) 8 eq_refl).
  pose proof (Z.div_mod (Z.log2 n) 8). lia.
Qed.

Lemma byte_width_small n :
  0 < n < 2 ^ 1016 → (1 ≤ toolbox.byte_width n ≤ 127)%nat.
Proof.
  intros [Hn Hlt]. unfold toolbox.byte_width.
  pose proof (Z.log2_nonneg n) as Hlog.
  assert (Z.log2 n < 1016) by (by apply Z.log2_lt_pow2).
  pose proof (Z.div_pos (Z.log2 n) 8 Hlog eq_refl) as Hdiv.
  assert (Z.log2 n / 8 < 127) by (apply Z.div_lt_upper_bound; lia).
  lia.
Qed.

(** [encode_ber] produces a well-formed length field for every length
    that fits in 127 bytes. *)
Lemma encode_ber_field n :
  0 ≤ n < 2 ^ 1016 → ber_field n (toolbox.encode_ber n).
Proof.
  intros [Hn Hlt]. unfold toolbox.encode_ber.
  destruct (Z.ltb_spec n 128) as [Hsmall|Hbig]; unfold ber_field.
  - rewrite Z_of_byte_of_Z, Z.mod_small by lia.
    rewrite high_bit_byte, bool_decide_false by lia. done.
  - pose proof (byte_width_small n ltac:(lia)) as Hk.
    rewrite Z_of_byte_of_Z, lor_128_small by lia.
    rewrite Z.mod_small by lia.
    rewrite high_bit_byte, bool_decide_true by lia.
    rewrite length_int_to_bytes. split.
    + change 127 with (Z.ones 7). rewrite Z.land_ones by lia.
      change (2 ^ 7) with 128.
      replace (128 + Z.of_nat (toolbox.byte_width n))
        with (Z.of_nat (toolbox.byte_width n) + 1 * 128) by lia.
      rewrite Z_mod_plus_full. apply Z.mod_small. lia.
    + symmetry. apply bytes_to_int_to_bytes_small.
      pose proof (byte_width_fits n). lia.
Qed.

(** ** The wire-trace explainer *)

Lemma py_slice_from_app {A} (pre rest : list A) (lo : Z) :
  lo = Z.of_nat (length pre) → py_slice_from (pre ++ rest) lo = rest.
Proof.
  intros ->. unfold py_slice_from, slice_index. rewrite length_app.
  destruct (Z.ltb_spec (Z.of_nat (length pre)) 0); [lia|].
  rewrite Z.max_r, Z.min_r by lia.
  by rewrite Nat2Z.id, drop_app_length.
Qed.

Section explain_facts.
Context {Arg Val : Type} `{Countable Val}.
Variable requests_get_by_key : catalog_key → option (MessageDefinition Arg bytes).
Variable responses_get_by_key : catalog_key → option (MessageDefinition bytes Val).

Local Abbreviation segments := (explain_klv_segments requests_get_by_key responses_get_by_key).
Local Abbreviation key_name_of := (key_name_of requests_get_by_key responses_get_by_key).

(** What [explain_klv] sees in a frame made of a 13-byte header, a 3-byte
    key, a well-formed length field, a 4-byte id and a payload. *)
Lemma explain_klv_segments_frame (hdr key field id payload : bytes) (n : Z) :
  length hdr = 13%nat → length key = 3%nat → ber_field n field →
  length id = 4%nat →
  segments (hdr ++ key ++ field ++ id ++ payload) =
    match key_name_of (toolbox.bytes_to_hex key) with
    | inl e => inl e
    | inr key_name =>
        inr (mk_klv_segments
               (toolbox.bytes_to_hex hdr) (toolbox.bytes_to_hex key) key_name
               (toolbox.bytes_to_hex field) n
               (toolbox.bytes_to_hex id) (toolbox.bytes_to_int id)
               (if 40 <? Z.of_nat (length (hdr ++ key ++ field ++ id ++ payload))
                then substring 0 40 (toolbox.bytes_to_hex payload) +:+ "..."
                else toolbox.bytes_to_hex payload))
    end.
Proof.
  intros Hhdr Hkey Hfield Hid.
  set (data := hdr ++ key ++ field ++ id ++ payload).
  assert (H1 : py_slice data 0 13 = hdr).
  { apply (py_slice_middle [] hdr); cbn [length]; lia. }
  assert (H2 : py_slice data 13 16 = key).
  { apply py_slice_middle; lia. }
  assert (H3 : py_slice_from data 16 = field ++ id ++ payload).
  { unfold data. rewrite (app_assoc hdr key).
    apply py_slice_from_app. rewrite length_app. lia. }
  assert (H4 : py_slice data 16 (16 + Z.of_nat (length field)) = field).
  { unfold data. rewrite (app_assoc hdr key).
    apply py_slice_middle; rewrite ?length_app; lia. }
  assert (H5 : py_slice data (16 + Z.of_nat (length field))
                 (16 + Z.of_nat (length field) + 4) = id).
  { unfold data. rewrite (app_assoc key field), (app_assoc hdr).
    apply py_slice_middle; rewrite ?length_app; lia. }
  assert (H6 : py_slice_from data (16 + Z.of_nat (length field) + 4) = payload).
  { unfold data.
    rewrite (app_assoc field id), (app_assoc key), (app_assoc hdr).
    apply py_slice_from_app. rewrite ?length_app. lia. }
  unfold explain_klv_segments. fold data. cbn zeta.
  rewrite H1, H2, H3, (decode_ber_field n field (id ++ payload) Hfield).
  destruct (key_name_of _) as [e|key_name]; [done|].
  cbn [mbind exn_bind]. rewrite H4, H5, H6. done.
Qed.

End explain_facts.

Lemma has_char_app c s1 s2 :
  has_char c (s1 +:+ s2) = has_char c s1 || has_char c s2.
Proof.
  induction s1 as [|c1 s1 IH]; simpl; [done|].
  by rewrite IH, orb_assoc.
Qed.

Lemma hex_digit_not_dot n : toolbox.hex_digit n ≠ "."%char.
Proof.
  destruct n as [|p|p]; [done| |done].
  do 4 (try (destruct p as [p|p|]; try done)).
Qed.

Lemma bytes_to_hex_no_dot data :
  has_char "." (toolbox.bytes_to_hex data) = false.
Proof.
  induction data as [|b data IH]; cbn; [done|].
  rewrite IH, !bool_decide_false; [done|..];
    intros Heq; by eapply hex_digit_not_dot.
Qed.

Lemma bytes_to_hex_not_ellipsis data :
  ¬ ends_with "..." (toolbox.bytes_to_hex data).
Proof.
  intros [p Hp].
  pose proof (bytes_to_hex_no_dot data) as Hdot.
  rewrite Hp, has_char_app in Hdot. cbn in Hdot.
  by rewrite orb_true_r in Hdot.
Qed.

Lemma length_bytes_to_hex data :
  String.length (toolbox.bytes_to_hex data) = (2 * length data)%nat.
Proof. induction data as [|b data IH]; cbn; [done|]. rewrite IH. lia. Qed.

(** C7 (amended). Whenever [explain_klv] renders a frame, the payload-hex
    segment ends in ["..."] exactly when the whole frame, header and key
    and length and id included, is longer than 40 bytes, and it is then
    the first 40 characters of the payload hex followed by ["..."]; for
    every frame of at most 40 bytes the payload hex is rendered as it is. *)
Theorem C7_explain_klv_truncation {Arg Val : Type} `{Countable Val}
    (requests_get_by_key : catalog_key → option (MessageDefinition Arg bytes))
    (responses_get_by_key : catalog_key → option (MessageDefinition bytes Val))
    (data : bytes) (segs : klv_segments) :
  explain_klv_segments requests_get_by_key responses_get_by_key data = inr segs →
  ∃ n ber_size,
    toolbox.decode_ber (py_slice_from data 16) = inr (n, ber_size) ∧
    let payload := py_slice_from data (16 + Z.of_nat ber_size + 4) in
    let payload_hex := toolbox.bytes_to_hex payload in
    (ends_with "..." (short_hex segs) ↔ (40 < length data)%nat) ∧
    ((40 < length data)%nat →
       short_hex segs = substring 0 40 payload_hex +:+ "...") ∧
    ((length data ≤ 40)%nat → short_hex segs = payload_hex) ∧
    explain_klv requests_get_by_key responses_get_by_key data =
      inr (klv_format segs).
Proof.
  unfold explain_klv, explain_klv_segments. cbn zeta.
  destruct (key_name_of _ _ _) as [|key_name]; [done|].
  destruct (toolbox.decode_ber _) as [|[n ber_size]]; [done|].
  cbn [mbind exn_bind mret exn_ret]. intros [= <-]. cbn [short_hex].
  exists n, ber_size. split; [done|].
  destruct (Z.ltb_spec 40 (Z.of_nat (length data))) as [Hlong|Hshort].
  - repeat split; try done; try lia. intros _. by eexists.
  - repeat split; try done; try lia.
    intros Hends. by apply bytes_to_hex_not_ellipsis in Hends.
Qed.

Lemma C7_explain_klv_truncation_witness :
  ∃ n ber_size,
    toolbox.decode_ber (py_slice_from Sample.frame26 16) = inr (n, ber_size) ∧
    let payload := py_slice_from Sample.frame26 (16 + Z.of_nat ber_size + 4) in
    let payload_hex := toolbox.bytes_to_hex payload in
    (ends_with "..." "0000002a07" ↔ (40 < length Sample.frame26)%nat) ∧
    ((40 < length Sample.frame26)%nat →
       "0000002a07" = substring 0 40 payload_hex +:+ "...") ∧
    ((length Sample.frame26 ≤ 40)%nat → "0000002a07" = payload_hex) ∧
    explain_klv Sample.requests_get_by_key Sample.responses_get_by_key
        Sample.frame26 =
      inr (klv_format
             (mk_klv_segments "060e2b340205010a0e10010101" "aabbcc"
                "Sample Request" "09" 9 "00000001" 1 "0000002a07")).
Proof.
  apply (C7_explain_klv_truncation Sample.requests_get_by_key
           Sample.responses_get_by_key Sample.frame26
           (mk_klv_segments "060e2b340205010a0e10010101" "aabbcc"
              "Sample Request" "09" 9 "00000001" 1 "0000002a07")).
  reflexivity.
Defined.

(** C7 as stated fails on a frame of 41 bytes with a payload of 20
    bytes: the payload hex has exactly 40 characters, so it is not longer
    than 40 characters, and yet the segment is that hex followed by
    ["..."]. *)
Lemma C7_counterexample :
  explain_klv_segments Sample.requests_get_by_key Sample.responses_get_by_key
      Sample.frame41 =
    inr (mk_klv_segments "060e2b340205010a0e10010101" "aabbcc"
           "Sample Request" "18" 24 "00000001" 1
           "2a2a2a2a2a2a2a2a2a2a2a2a2a2a2a2a2a2a2a2a...") ∧
  length Sample.frame41 = 41%nat ∧
  toolbox.bytes_to_hex (py_slice_from Sample.frame41 21) =
    "2a2a2a2a2a2a2a2a2a2a2a2a2a2a2a2a2a2a2a2a" ∧
  String.length (toolbox.bytes_to_hex (py_slice_from Sample.frame41 21)) = 40%nat ∧
  ends_with "..." "2a2a2a2a2a2a2a2a2a2a2a2a2a2a2a2a2a2a2a2a...".
Proof.
  repeat split; try reflexivity.
  by exists "2a2a2a2a2a2a2a2a2a2a2a2a2a2a2a2a2a2a2a2a".
Qed.

(** ** Sending *)

(** The frame of a successful [construct_message] is read by the
    explainer as the header, the key, the length, the id and the
    payload it was built from. *)
Lemma explain_klv_constructed {Arg Val Sock : Type} `{Countable Val}
    (requests_get_by_key : catalog_key → option (MessageDefinition Arg bytes))
    (responses_get_by_key : catalog_key → option (MessageDefinition bytes Val))
    (message : MessageDefinition Arg bytes) (args : list Arg)
    (kwargs : gmap string Arg) (w : World Sock) (data : bytes) :
  fst (construct_message message args kwargs w) = inr data →
  length (key message) = 3%nat →
  Z.of_nat (length data) < 2 ^ 1016 →
  (is_Some (requests_get_by_key (KeyHex (toolbox.bytes_to_hex (key message)))) ∨
   is_Some (responses_get_by_key (KeyHex (toolbox.bytes_to_hex (key message))))) →
  ∃ segs,
    explain_klv_segments requests_get_by_key responses_get_by_key data = inr segs ∧
    explain_klv requests_get_by_key responses_get_by_key data =
      inr (klv_format segs) ∧
    header_hex segs = toolbox.bytes_to_hex HEADER ∧
    key_hex segs = toolbox.bytes_to_hex (key message) ∧
    Z.of_nat (length data) =
      16 + Z.of_nat (length (toolbox.encode_ber (ber segs))) + ber segs ∧
    id_int segs = (REQUEST_ID w + 1) mod 60000.
Proof.
  rewrite construct_message_unfold. cbn zeta. cbn [fst].
  destruct (construct_payload_values _ _ _ _ _) as [|pvs]; [done|].
  intros <-%(inj inr) Hkey Hlen Hknown.
  set (id := toolbox.int_to_bytes ((REQUEST_ID w + 1) mod 60000) 4) in *.
  set (n := Z.of_nat (length (id ++ concat pvs))) in *.
  assert (Hn : 0 ≤ n < 2 ^ 1016).
  { rewrite !length_app in Hlen. subst n. rewrite length_app. lia. }
  pose proof (explain_klv_segments_frame requests_get_by_key
                responses_get_by_key HEADER (key message)
                (toolbox.encode_ber n) id (concat pvs) n eq_refl Hkey
                (encode_ber_field n Hn) (length_int_to_bytes _ _)) as Hsegs.
  assert (Hname : ∃ key_name,
             key_name_of requests_get_by_key responses_get_by_key
               (toolbox.bytes_to_hex (key message)) = inr key_name).
  { unfold key_name_of. destruct Hknown as [[d ->]|[d ->]]; [by eexists|].
    destruct (requests_get_by_key _); by eexists. }
  destruct Hname as [key_name Hname]. rewrite Hname in Hsegs.
  eexists. split; [exact Hsegs|]. unfold explain_klv. rewrite Hsegs.
  split; [done|]. cbn [header_hex key_hex ber id_int].
  split; [done|]. split; [done|]. split.
  - rewrite !length_app. change (length HEADER) with 13%nat.
    rewrite Hkey. subst n. rewrite !length_app. lia.
  - subst id. apply bytes_to_int_to_bytes_small.
    pose proof (Z.mod_pos_bound (REQUEST_ID w + 1) 60000 eq_refl).
    change (256 ^ Z.of_nat 4) with 4294967296. lia.
Qed.

Section send_facts.
Context {Arg Val : Type} `{Countable Val}.
Context {Sock : Type} `{Transport Sock}.
Variable logging_bound : bool.
Variable requests_get_by_key : catalog_key → option (MessageDefinition Arg bytes).
Variable responses_get_by_key : catalog_key → option (MessageDefinition bytes Val).

(** The body of [CommandCall.send], path by path. *)
Lemma CommandCall_send_paths (self : CommandCall) (args : list Arg)
    (kwargs : gmap string Arg) (w : World Sock) :
  CommandCall_send logging_bound requests_get_by_key responses_get_by_key
      self args kwargs w =
    if decide (is_Some (kwargs !! "message")) then (inl TypeError, w)
    else
      let request_id := (REQUEST_ID w + 1) mod 60000 in
      match fst (construct_message (request_definition self) args kwargs w) with
      | inl e => (inl e, mkWorld request_id (sock w) (logged w))
      | inr request_bin =>
          match sock_send request_bin (sock w) with
          | (inl e, s') => (inl e, mkWorld request_id s' (logged w))
          | (inr _, s') =>
              if debug self then
                if logging_bound then
                  match explain_klv requests_get_by_key responses_get_by_key
                          request_bin with
                  | inl e => (inl e, mkWorld request_id s' (logged w))
                  | inr text =>
                      (inr 0,
                       mkWorld request_id s'
                         (logged w ++
                          ["REQUEST SENT TO " +:+ host self +:+ ":" +:+
                           pretty (port self) +:+ " : " +:+ nl +:+ text]))
                  end
                else (inl NameError, mkWorld request_id s' (logged w))
              else (inr 0, mkWorld request_id s' (logged w))
          end
      end.
Proof.
  unfold CommandCall_send. unfold mbind at 1, M_bind at 1.
  rewrite construct_message_call_unfold.
  destruct (decide (is_Some (kwargs !! "message"))); [done|].
  rewrite construct_message_unfold. cbn zeta. cbn [fst].
  destruct (construct_payload_values _ _ _ _ _) as [e|pvs]; [done|].
  unfold mbind at 1, M_bind at 1. unfold on_sock at 1.
  cbn [sock REQUEST_ID logged].
  destruct (sock_send _ (sock w)) as [[e|[]] s']; [done|].
  destruct (debug self); [|reflexivity].
  destruct logging_bound; [|reflexivity].
  unfold mbind, M_bind, lift, logging_name, mret, M_ret.
  by destruct (explain_klv _ _ _).
Qed.

End send_facts.

(** C8 (the code at the failing input, and beside it). For an argument
    list that the request schema accepts and a hand-off that succeeds,
    [CommandCall.send] outside debug mode sends the frame in one [send]
    and returns 0.  In debug mode the claim fails on the module as it is
    written: [logging.debug] is evaluated before its argument and
    [commands.py] binds no name [logging], so the call raises [NameError]
    after the frame has been sent, logs nothing and does not return 0.
    Only when the star import of [toolbox.bytes] binds [logging] (and the
    3-byte key of the request is known to a catalog under its hex form)
    does a debug-mode send render the frame, log the rendering and
    return 0. *)
Theorem C8_send_hands_off_frame {Arg Val Sock : Type} `{Countable Val}
    `{Transport Sock} (logging_bound : bool)
    (requests_get_by_key : catalog_key → option (MessageDefinition Arg bytes))
    (responses_get_by_key : catalog_key → option (MessageDefinition bytes Val))
    (self : CommandCall) (args : list Arg) (kwargs : gmap string Arg)
    (w : World Sock) (request_bin : bytes) (s' : Sock) :
  fst (construct_message_call (request_definition self) args kwargs w) =
    inr request_bin →
  sock_send request_bin (sock w) = (inr (), s') →
  (debug self = false →
     CommandCall_send logging_bound requests_get_by_key responses_get_by_key
         self args kwargs w =
       (inr 0, mkWorld ((REQUEST_ID w + 1) mod 60000) s' (logged w))) ∧
  (debug self = true → logging_bound = false →
     CommandCall_send logging_bound requests_get_by_key responses_get_by_key
         self args kwargs w =
       (inl NameError, mkWorld ((REQUEST_ID w + 1) mod 60000) s' (logged w))) ∧
  (debug self = true → logging_bound = true →
     length (key (request_definition self)) = 3%nat →
     Z.of_nat (length request_bin) < 2 ^ 1016 →
     (is_Some (requests_get_by_key
                 (KeyHex (toolbox.bytes_to_hex (key (request_definition self))))) ∨
      is_Some (responses_get_by_key
                 (KeyHex (toolbox.bytes_to_hex (key (request_definition self)))))) →
     ∃ text,
       explain_klv requests_get_by_key responses_get_by_key request_bin = inr text ∧
       CommandCall_send logging_bound requests_get_by_key responses_get_by_key
           self args kwargs w =
         (inr 0,
          mkWorld ((REQUEST_ID w + 1) mod 60000) s'
            (logged w ++
             ["REQUEST SENT TO " +:+ host self +:+ ":" +:+
              pretty (port self) +:+ " : " +:+ nl +:+ text]))).
Proof.
  rewrite construct_message_call_unfold. intros Hrun Hsend.
  rewrite CommandCall_send_paths.
  destruct (decide (is_Some (kwargs !! "message"))); [done|].
  cbn zeta. rewrite Hrun, Hsend.
  split; [by intros ->|]. split; [by intros -> ->|].
  intros -> -> Hkey Hlen Hknown.
  destruct (explain_klv_constructed requests_get_by_key responses_get_by_key
              _ _ _ _ _ Hrun Hkey Hlen Hknown) as (segs & _ & Htext & _).
  exists (klv_format segs). split; [done|]. by rewrite Htext.
Qed.

Lemma C8_send_hands_off_frame_witness :
  CommandCall_send Sample.own_imports Sample.requests_get_by_key
      Sample.responses_get_by_key (Sample.call false) [42; 7] ∅ Sample.world0 =
    (inr 0,
     mkWorld ((REQUEST_ID Sample.world0 + 1) mod 60000)
       (mkStream [] [Sample.frame26]) (logged Sample.world0)) ∧
  CommandCall_send Sample.own_imports Sample.requests_get_by_key
      Sample.responses_get_by_key (Sample.call true) [42; 7] ∅ Sample.world0 =
    (inl NameError,
     mkWorld ((REQUEST_ID Sample.world0 + 1) mod 60000)
       (mkStream [] [Sample.frame26]) (logged Sample.world0)) ∧
  ∃ text,
    explain_klv Sample.requests_get_by_key Sample.responses_get_by_key
      Sample.frame26 = inr text ∧
    CommandCall_send Sample.logging_imported Sample.requests_get_by_key
        Sample.responses_get_by_key (Sample.call true) [42; 7] ∅
        Sample.world0 =
      (inr 0,
       mkWorld ((REQUEST_ID Sample.world0 + 1) mod 60000)
         (mkStream [] [Sample.frame26])
         (logged Sample.world0 ++
          ["REQUEST SENT TO " +:+ "10.0.0.1" +:+ ":" +:+
           pretty 11730 +:+ " : " +:+ nl +:+ text])).
Proof.
  assert (fst (construct_message_call (request_definition (Sample.call true))
                 [42; 7] ∅ Sample.world0) = inr Sample.frame26) as Hrun
    by reflexivity.
  assert (sock_send Sample.frame26 (sock Sample.world0) =
            (inr (), mkStream [] [Sample.frame26])) as Hsend by reflexivity.
  split; [|split].
  - destruct (C8_send_hands_off_frame Sample.own_imports
                Sample.requests_get_by_key Sample.responses_get_by_key
                (Sample.call false) [42; 7] ∅ Sample.world0 Sample.frame26
                (mkStream [] [Sample.frame26]) Hrun Hsend)
      as (Hplain & _ & _).
    apply Hplain; reflexivity.
  - destruct (C8_send_hands_off_frame Sample.own_imports
                Sample.requests_get_by_key Sample.responses_get_by_key
                (Sample.call true) [42; 7] ∅ Sample.world0 Sample.frame26
                (mkStream [] [Sample.frame26]) Hrun Hsend)
      as (_ & Hname & _).
    apply Hname; reflexivity.
  - destruct (C8_send_hands_off_frame Sample.logging_imported
                Sample.requests_get_by_key Sample.responses_get_by_key
                (Sample.call true) [42; 7] ∅ Sample.world0 Sample.frame26
                (mkStream [] [Sample.frame26]) Hrun Hsend)
      as (_ & _ & Hlog).
    apply Hlog; [reflexivity..| |left; by eexists].
    vm_compute. reflexivity.
Defined.

(** ** Receiving *)

Section receive_facts.
Context {Arg Val : Type} `{Countable Val}.
Context {Sock : Type} `{Transport Sock}.
Variable logging_bound : bool.
Variable requests_get_by_key : catalog_key → option (MessageDefinition Arg bytes).
Variable responses_get_by_key : catalog_key → option (MessageDefinition bytes Val).
Implicit Types w : World Sock.

Lemma on_sock_receive_length n w data w' :
  on_sock (sock_receive n) w = (inr data, w') → Z.of_nat (length data) = n.
Proof.
  unfold on_sock. destruct (sock_receive n (sock w)) as [r s1] eqn:Hrecv.
  intros [= -> _]. by eapply sock_receive_length.
Qed.

(** What [ber_from_socket] returns is a well-formed length field. *)
Lemma ber_from_socket_field w size ber_size field w' :
  ber_from_socket w = (inr (size, ber_size, field), w') →
  ber_field size field ∧ ber_size = Z.of_nat (length field).
Proof.
  unfold ber_from_socket. unfold mbind at 1, M_bind at 1.
  destruct (on_sock (sock_receive 1) w) as [[e|first] w1] eqn:Hfirst; [done|].
  destruct first as [|b [|b' first]]; try done.
  destruct (Z.testbit (Z_of_byte b) 7) eqn:Hbit.
  - unfold mbind, M_bind.
    destruct (on_sock (sock_receive _) w1) as [[e|rest] w2] eqn:Hrest; [done|].
    apply on_sock_receive_length in Hrest.
    unfold mret, M_ret. intros Heq. simplify_eq.
    unfold ber_field. rewrite Hbit. cbn [length]. split; [|lia].
    by rewrite Hrest.
  - unfold mret, M_ret. intros Heq. simplify_eq.
    unfold ber_field. by rewrite Hbit.
Qed.

(** The result of [CommandCall.receive] as a function of what the
    transport delivered: the correlation id does not occur in it. *)
Lemma CommandCall_receive_delivered (self : CommandCall (Arg := Arg)) w
    hdr key size field id payload w' :
  delivers w hdr key size field id payload w' →
  fst (CommandCall_receive logging_bound requests_get_by_key
         responses_get_by_key self w) =
    (response_definition ←
       of_option KeyError (responses_get_by_key (KeyBytes key));
     _ ← (if debug self
          then if logging_bound
               then key_name_of requests_get_by_key responses_get_by_key
                      (toolbox.bytes_to_hex key)
               else inl NameError
          else mret EmptyString);
     parse_message response_definition payload).
Proof.
  intros (w1 & w2 & w3 & w4 & ber_size & H1 & H2 & H3 & H4 & H5).
  pose proof (on_sock_receive_length _ _ _ _ H1) as Hhdr.
  pose proof (on_sock_receive_length _ _ _ _ H2) as Hkey.
  pose proof (on_sock_receive_length _ _ _ _ H4) as Hid.
  destruct (ber_from_socket_field _ _ _ _ _ H3) as [Hfield _].
  unfold CommandCall_receive.
  unfold mbind at 1, M_bind at 1. rewrite H1.
  unfold mbind at 1, M_bind at 1. rewrite H2.
  unfold mbind at 1, M_bind at 1. rewrite H3.
  unfold mbind at 1, M_bind at 1. rewrite H4.
  unfold mbind at 1, M_bind at 1. rewrite H5.
  unfold mbind at 1, M_bind at 1. unfold lift at 1.
  destruct (responses_get_by_key (KeyBytes key)) as [def|]; cbn [of_option];
    [|done].
  cbn [mbind exn_bind].
  destruct (debug self); [|reflexivity].
  destruct logging_bound; [|reflexivity].
  unfold mbind at 1, M_bind at 1. unfold mbind at 1, M_bind at 1.
  unfold logging_name, mret at 1, M_ret at 1.
  unfold mbind at 1, M_bind at 1.
  unfold lift at 1. unfold explain_klv.
  rewrite (explain_klv_segments_frame requests_get_by_key
             responses_get_by_key hdr key field id payload size)
    by (done || lia).
  destruct (key_name_of _ _ _) as [e|key_name]; [done|].
  reflexivity.
Qed.

End receive_facts.

(** C6. Two executions of [CommandCall.receive] to which the transport
    delivers the same response key, the same BER length field and the
    same payload bytes, but different 4-byte correlation ids, return the
    same result, whatever the request-id counter holds: the received id
    is read and dropped, and the result is a function of the key, of the
    payload and of the catalogs alone. *)
Theorem C6_receive_ignores_correlation_id {Arg Val Sock : Type}
    `{Countable Val} `{Transport Sock} (logging_bound : bool)
    (requests_get_by_key : catalog_key → option (MessageDefinition Arg bytes))
    (responses_get_by_key : catalog_key → option (MessageDefinition bytes Val))
    (self : CommandCall (Arg := Arg)) (w1 w2 w1' w2' : World Sock)
    (hdr1 hdr2 key field id1 id2 payload : bytes) (size : Z) :
  delivers w1 hdr1 key size field id1 payload w1' →
  delivers w2 hdr2 key size field id2 payload w2' →
  fst (CommandCall_receive logging_bound requests_get_by_key
         responses_get_by_key self w1) =
  fst (CommandCall_receive logging_bound requests_get_by_key
         responses_get_by_key self w2) ∧
  fst (CommandCall_receive logging_bound requests_get_by_key
         responses_get_by_key self w1) =
    (response_definition ←
       of_option KeyError (responses_get_by_key (KeyBytes key));
     _ ← (if debug self
          then if logging_bound
               then key_name_of requests_get_by_key responses_get_by_key
                      (toolbox.bytes_to_hex key)
               else inl NameError
          else mret EmptyString);
     parse_message response_definition payload).
Proof.
  intros Hrun1 Hrun2.
  rewrite (CommandCall_receive_delivered _ _ _ _ _ _ _ _ _ _ _ _ Hrun1).
  rewrite (CommandCall_receive_delivered _ _ _ _ _ _ _ _ _ _ _ _ Hrun2).
  done.
Qed.

Lemma C6_receive_ignores_correlation_id_witness :
  fst (CommandCall_receive Sample.own_imports Sample.requests_get_by_key
         Sample.responses_get_by_key (Sample.call false)
         (Sample.world_reply 1 [Byte.x00; Byte.x00; Byte.x00; Byte.x01])) =
  fst (CommandCall_receive Sample.own_imports Sample.requests_get_by_key
         Sample.responses_get_by_key (Sample.call false)
         (Sample.world_reply 1 [Byte.x00; Byte.x00; Byte.xea; Byte.x5f])) ∧
  fst (CommandCall_receive Sample.own_imports Sample.requests_get_by_key
         Sample.responses_get_by_key (Sample.call false)
         (Sample.world_reply 1 [Byte.x00; Byte.x00; Byte.x00; Byte.x01])) =
    inr [("a", Decoded 42); ("b", Decoded 7); ("b_text", Text "Busy")].
Proof.
  assert (H1 : delivers
            (Sample.world_reply 1 [Byte.x00; Byte.x00; Byte.x00; Byte.x01])
            HEADER [Byte.xaa; Byte.xbb; Byte.xcc] 9 [Byte.x09]
            [Byte.x00; Byte.x00; Byte.x00; Byte.x01]
            [Byte.x00; Byte.x00; Byte.x00; Byte.x2a; Byte.x07]
            (mkWorld 1 (mkStream [] []) []))
    by (unfold delivers; repeat eexists; reflexivity).
  assert (H2 : delivers
            (Sample.world_reply 1 [Byte.x00; Byte.x00; Byte.xea; Byte.x5f])
            HEADER [Byte.xaa; Byte.xbb; Byte.xcc] 9 [Byte.x09]
            [Byte.x00; Byte.x00; Byte.xea; Byte.x5f]
            [Byte.x00; Byte.x00; Byte.x00; Byte.x2a; Byte.x07]
            (mkWorld 1 (mkStream [] []) []))
    by (unfold delivers; repeat eexists; reflexivity).
  destruct (C6_receive_ignores_correlation_id Sample.own_imports
              Sample.requests_get_by_key Sample.responses_get_by_key
              (Sample.call false) _ _ _ _ _ _ _ _ _ _ _ _ H1 H2)
    as [Hsame Hvalue].
  split; [exact Hsame|]. rewrite Hvalue. reflexivity.
Defined.

(** * Further properties of the module *)

(** ** Request ids within one cycle *)

Lemma mod_cycle_inj (a b : Z) :
  a mod 60000 = b mod 60000 → -60000 < a - b < 60000 → a = b.
Proof.
  intros Hmod Hrange.
  pose proof (Z.div_mod a 60000 ltac:(lia)).
  pose proof (Z.div_mod b 60000 ltac:(lia)).
  lia.
Qed.

Lemma int_to_bytes_4_inj (x y : Z) :
  0 ≤ x < 60000 → 0 ≤ y < 60000 →
  toolbox.int_to_bytes x 4 = toolbox.int_to_bytes y 4 → x = y.
Proof.
  intros Hx Hy Heq.
  rewrite <- (bytes_to_int_to_bytes_small x 4), <- (bytes_to_int_to_bytes_small y 4);
    [by rewrite Heq|..]; change (256 ^ Z.of_nat 4) with 4294967296; lia.
Qed.

(** X1. Among at most 60000 successive calls of the request-id
    generator, from any counter value, no two return the same id, and
    the 4-byte encodings of their ids differ as well. *)
Theorem X1_request_ids_distinct_within_cycle {Sock : Type} (w : World Sock)
    (n i j : nat) (ids : list Z) (x y : Z) :
  (n ≤ cycle_length)%nat →
  fst (request_ids n w) = inr ids →
  ids !! i = Some x → ids !! j = Some y → i ≠ j →
  x ≠ y ∧ toolbox.int_to_bytes x 4 ≠ toolbox.int_to_bytes y 4.
Proof.
  unfold cycle_length. intros Hn Hids Hi Hj Hij.
  rewrite request_ids_from in Hids. cbn [fst] in Hids.
  apply (inj inr) in Hids. subst ids.
  change (map ?f ?l) with (f <$> l) in Hi, Hj.
  rewrite list_lookup_fmap in Hi, Hj.
  destruct (seq 0 n !! i) as [i'|] eqn:Hi'; [|done].
  destruct (seq 0 n !! j) as [j'|] eqn:Hj'; [|done].
  apply lookup_seq in Hi' as [-> Hin]. apply lookup_seq in Hj' as [-> Hjn].
  cbn in Hi, Hj. injection Hi as <-. injection Hj as <-.
  assert (Hne : (REQUEST_ID w + Z.of_nat (S i)) mod 60000 ≠
                (REQUEST_ID w + Z.of_nat (S j)) mod 60000).
  { intros Heq. apply mod_cycle_inj in Heq; lia. }
  split; [done|]. intros Heq. apply Hne.
  apply int_to_bytes_4_inj; [apply Z.mod_pos_bound; lia..|done].
Qed.

Lemma X1_request_ids_distinct_within_cycle_witness :
  (59999 : Z) ≠ 0 ∧
  toolbox.int_to_bytes 59999 4 ≠ toolbox.int_to_bytes 0 4.
Proof.
  assert (Hn : (2 ≤ cycle_length)%nat) by (unfold cycle_length; lia).
  apply (X1_request_ids_distinct_within_cycle
           (mkWorld 59998 (mkStream [] []) []) 2 0 1 [59999; 0] 59999 0
           Hn eq_refl eq_refl eq_refl).
  discriminate.
Defined.

(** ** More on [construct_message] *)

Lemma resolve_arguments_positional {Arg : Type}
    (elems : list (MessageElement Arg bytes)) : ∀ args : list Arg,
  (length elems ≤ length args)%nat →
  resolve_arguments elems args ∅ = Some (take (length elems) args).
Proof.
  induction elems as [|e elems IH]; intros args Hlen; cbn; [done|].
  rewrite lookup_empty. destruct args as [|v rest]; cbn in Hlen; [lia|].
  rewrite IH by lia. done.
Qed.

Lemma resolve_arguments_named {Arg : Type}
    (elems : list (MessageElement Arg bytes)) (kwargs : gmap string Arg) :
  (∀ e, e ∈ elems → is_Some (kwargs !! name e)) →
  ∀ args, resolve_arguments elems args kwargs = resolve_arguments elems [] kwargs ∧
          is_Some (resolve_arguments elems [] kwargs).
Proof.
  induction elems as [|e elems IH]; intros Hnamed args; cbn; [eauto|].
  destruct (Hnamed e) as [v ->]; [by left|].
  assert (Hnamed' : ∀ e', e' ∈ elems → is_Some (kwargs !! name e')).
  { intros e' He'. apply Hnamed. by right. }
  destruct (IH Hnamed' args) as [-> Hsome].
  split; [done|]. by apply fmap_is_Some.
Qed.

(** X2. The length field of a frame that [construct_message] returns
    announces exactly the number of bytes that follow it: decoding it at
    the offset after header and key gives the length of the rest of the
    frame, which is at least the 4 bytes of the id. *)
Theorem X2_constructed_frame_length_field {Arg Sock : Type}
    (message : MessageDefinition Arg bytes) (args : list Arg)
    (kwargs : gmap string Arg) (w : World Sock) (data : bytes) :
  fst (construct_message message args kwargs w) = inr data →
  Z.of_nat (length data) < 2 ^ 1016 →
  ∃ n ber_size,
    toolbox.decode_ber (drop (13 + length (key message)) data) = inr (n, ber_size) ∧
    Z.of_nat (length data) =
      13 + Z.of_nat (length (key message)) + Z.of_nat ber_size + n ∧
    4 ≤ n.
Proof.
  rewrite construct_message_unfold. cbn zeta. cbn [fst].
  destruct (construct_payload_values _ _ _ _ _) as [|pvs]; [done|].
  intros <-%(inj inr) Hlen.
  set (id := toolbox.int_to_bytes ((REQUEST_ID w + 1) mod 60000) 4) in *.
  set (n := Z.of_nat (length (id ++ concat pvs))) in *.
  assert (Hid : length id = 4%nat) by apply length_int_to_bytes.
  assert (Hn : 0 ≤ n < 2 ^ 1016).
  { rewrite !length_app in Hlen. subst n. rewrite length_app. lia. }
  exists n, (length (toolbox.encode_ber n)).
  rewrite (app_assoc HEADER).
  replace (13 + length (key message))%nat with (length (HEADER ++ key message))
    by (rewrite length_app; reflexivity).
  rewrite drop_app_length.
  rewrite (decode_ber_field n _ _ (encode_ber_field n Hn)).
  split; [done|]. rewrite !length_app. change (length HEADER) with 13%nat.
  subst n. rewrite length_app. lia.
Qed.

Lemma X2_constructed_frame_length_field_witness :
  ∃ n ber_size,
    toolbox.decode_ber (drop (13 + length (key Sample.request)) Sample.frame26) =
      inr (n, ber_size) ∧
    Z.of_nat (length Sample.frame26) =
      13 + Z.of_nat (length (key Sample.request)) + Z.of_nat ber_size + n ∧
    4 ≤ n.
Proof.
  apply (X2_constructed_frame_length_field Sample.request [42; 7] ∅
           Sample.world0 Sample.frame26).
  - reflexivity.
  - vm_compute. reflexivity.
Defined.

(** X3. The two plain ways of calling [construct_message].  Without
    named arguments the fields take the leading positional arguments in
    schema order, one each.  When every field has a named argument the
    positional arguments are never read: the call does what it does
    without any, and cannot fail with [MissingArgument]. *)
Theorem X3_construct_message_calling_conventions {Arg Sock : Type}
    (message : MessageDefinition Arg bytes) (args : list Arg)
    (kwargs : gmap string Arg) (w : World Sock) :
  ((length (elements message) ≤ length args)%nat →
     let request_id := (REQUEST_ID w + 1) mod 60000 in
     construct_message message args ∅ w =
       (match encode_fields (elements message)
                (take (length (elements message)) args) with
        | Some chunks =>
            let payload := toolbox.int_to_bytes request_id 4 ++ concat chunks in
            inr (HEADER ++ key message ++
                 toolbox.encode_ber (Z.of_nat (length payload)) ++ payload)
        | None => inl FuncError
        end,
        mkWorld request_id (sock w) (logged w))) ∧
  ((∀ e, e ∈ elements message → is_Some (kwargs !! name e)) →
     construct_message message args kwargs w =
       construct_message message [] kwargs w ∧
     fst (construct_message message args kwargs w) ≠ inl MissingArgument).
Proof.
  split.
  - intros Hlen request_id. rewrite construct_message_unfold. cbn zeta.
    rewrite (construct_payload_values_resolved _ _ _ 0%nat []
               (take (length (elements message)) args))
      by (by apply resolve_arguments_positional).
    by destruct (encode_fields _ _).
  - intros Hnamed.
    destruct (resolve_arguments_named _ _ Hnamed args) as [Hsame [vs Hvs]].
    rewrite !construct_message_unfold. cbn zeta. cbn [fst].
    rewrite (construct_payload_values_resolved _ args _ 0%nat [] vs)
      by (change (drop 0 args) with args; by rewrite Hsame).
    rewrite (construct_payload_values_resolved _ [] _ 0%nat [] vs) by done.
    split; [done|]. by destruct (encode_fields _ _).
Qed.

Lemma X3_construct_message_calling_conventions_witness :
  construct_message Sample.request [1; 2; 3] {[ "a" := 42; "b" := 7 ]}
    Sample.world0 =
  construct_message Sample.request [] {[ "a" := 42; "b" := 7 ]} Sample.world0.
Proof.
  destruct (X3_construct_message_calling_conventions Sample.request [1; 2; 3]
              {[ "a" := 42; "b" := 7 ]} Sample.world0) as [_ Hnamed].
  apply Hnamed.
  intros e He. repeat (apply elem_of_cons in He as [->|He]; [by eexists|]).
  by apply elem_of_nil in He.
Defined.

(** ** The request-id footprint of the command calls *)

Section id_footprint.
Context {Sock : Type} `{Transport Sock}.







End id_footprint.

Section call_facts.
Context {Arg Val : Type} `{Countable Val}.
Context {Sock : Type} `{Transport Sock}.
Variable logging_bound : bool.
Variable requests_get_by_key : catalog_key → option (MessageDefinition Arg bytes).
Variable responses_get_by_key : catalog_key → option (MessageDefinition bytes Val).
Implicit Types (self : CommandCall (Arg := Arg)) (w : World Sock).

Local Abbreviation send :=
  (CommandCall_send logging_bound requests_get_by_key responses_get_by_key).
Local Abbreviation receive :=
  (CommandCall_receive (Arg := Arg) logging_bound requests_get_by_key
     responses_get_by_key).





(** A call of the object whose named arguments do not bind [self] runs
    the body of [send] and then [receive]. *)
Lemma CommandCall_call_unfold self args (named : gmap string Arg) w :
  named !! "self" = None →
  CommandCall_call logging_bound requests_get_by_key responses_get_by_key
      self args named w =
    (_ ← send self args named; receive self) w.
Proof.
  intros Hself.
  assert (Hbind : bind_kwargs "self" named = inr named).
  { unfold bind_kwargs. rewrite decide_False; [done|].
    rewrite Hself. by intros [? [=]]. }
  unfold CommandCall_call. unfold mbind at 1, M_bind at 1, lift at 1.
  rewrite Hbind.
  unfold CommandCall_send_and_receive_call.
  unfold mbind at 1, M_bind at 1, lift at 1. rewrite Hbind.
  unfold CommandCall_send_and_receive.
  unfold mbind at 1, M_bind at 1. unfold CommandCall_send_call.
  unfold mbind at 1, M_bind at 1, lift at 1. rewrite Hbind.
  reflexivity.
Qed.

End call_facts.

(** X4. The failures of [CommandCall.send] before and at the hand-off.
    When the call of [construct_message] fails, nothing is sent and
    nothing is logged: the error is passed on, and the request id is
    spent unless the call failed on a named argument [message], before
    the body ran.  When the socket's [send] fails, its error is passed on
    and nothing is logged, in debug mode too. *)
Theorem X4_send_failures {Arg Val Sock : Type} `{Countable Val} `{Transport Sock}
    (logging_bound : bool)
    (requests_get_by_key : catalog_key → option (MessageDefinition Arg bytes))
    (responses_get_by_key : catalog_key → option (MessageDefinition bytes Val))
    (self : CommandCall) (args : list Arg) (kwargs : gmap string Arg)
    (w : World Sock) :
  (∀ e, fst (construct_message_call (request_definition self) args kwargs w) =
          inl e →
     CommandCall_send logging_bound requests_get_by_key responses_get_by_key
         self args kwargs w =
       (inl e,
        mkWorld (if decide (is_Some (kwargs !! "message")) then REQUEST_ID w
                 else (REQUEST_ID w + 1) mod 60000)
          (sock w) (logged w))) ∧
  (∀ request_bin e s',
     fst (construct_message_call (request_definition self) args kwargs w) =
       inr request_bin →
     sock_send request_bin (sock w) = (inl e, s') →
     CommandCall_send logging_bound requests_get_by_key responses_get_by_key
         self args kwargs w =
       (inl e, mkWorld ((REQUEST_ID w + 1) mod 60000) s' (logged w))).
Proof.
  rewrite construct_message_call_unfold. split.
  - intros e Hfail. rewrite CommandCall_send_paths.
    destruct (decide (is_Some (kwargs !! "message"))).
    + cbn [fst] in Hfail. injection Hfail as <-. by destruct w.
    + cbn zeta. by rewrite Hfail.
  - intros request_bin e s' Hrun Hsend. rewrite CommandCall_send_paths.
    destruct (decide (is_Some (kwargs !! "message"))); [done|].
    cbn zeta. by rewrite Hrun, Hsend.
Qed.

Lemma X4_send_failures_witness :
  CommandCall_send Sample.own_imports Sample.requests_get_by_key
      Sample.responses_get_by_key (Sample.call true) [42] ∅ Sample.world0 =
    (inl MissingArgument, mkWorld ((0 + 1) mod 60000) (mkStream [] []) []).
Proof.
  destruct (X4_send_failures Sample.own_imports Sample.requests_get_by_key
              Sample.responses_get_by_key (Sample.call true) [42] ∅
              Sample.world0) as [Hconstruct _].
  apply (Hconstruct MissingArgument). reflexivity.
Defined.

Lemma explain_klv_unknown_key {Arg Val : Type} `{Countable Val}
    (requests_get_by_key : catalog_key → option (MessageDefinition Arg bytes))
    (responses_get_by_key : catalog_key → option (MessageDefinition bytes Val))
    (hdr key tail : bytes) (e : exn) :
  length hdr = 13%nat → length key = 3%nat →
  key_name_of requests_get_by_key responses_get_by_key
    (toolbox.bytes_to_hex key) = inl e →
  explain_klv requests_get_by_key responses_get_by_key (hdr ++ key ++ tail) = inl e.
Proof.
  intros Hhdr Hkey Hname. unfold explain_klv, explain_klv_segments. cbn zeta.
  rewrite (py_slice_middle hdr key tail 13 16) by lia.
  by rewrite Hname.
Qed.

(** X5. A command call in debug mode fails after the request is on the
    wire and before the reply is read.  [__call__] runs [send] and then
    [receive]; in debug mode [send] logs after the hand-off to the
    socket.  With the imports that [commands.py] lists, the name
    [logging] is unbound there and the call raises [NameError]; when the
    star import binds it, the rendering looks the request key up under
    its hex form and the call raises [KeyError] if both catalogs miss.
    Either way the frame is already sent, the request id is spent,
    nothing is logged and nothing is read from the socket. *)
Theorem X5_debug_call_fails_after_hand_off {Arg Val Sock : Type}
    `{Countable Val} `{Transport Sock} (logging_bound : bool)
    (requests_get_by_key : catalog_key → option (MessageDefinition Arg bytes))
    (responses_get_by_key : catalog_key → option (MessageDefinition bytes Val))
    (self : CommandCall) (args : list Arg) (named : gmap string Arg)
    (w : World Sock) (request_bin : bytes) (s' : Sock) :
  debug self = true →
  named !! "self" = None →
  fst (construct_message_call (request_definition self) args named w) =
    inr request_bin →
  sock_send request_bin (sock w) = (inr (), s') →
  (logging_bound = false →
     CommandCall_call logging_bound requests_get_by_key responses_get_by_key
         self args named w =
       (inl NameError, mkWorld ((REQUEST_ID w + 1) mod 60000) s' (logged w))) ∧
  (logging_bound = true →
     length (key (request_definition self)) = 3%nat →
     requests_get_by_key
       (KeyHex (toolbox.bytes_to_hex (key (request_definition self)))) = None →
     responses_get_by_key
       (KeyHex (toolbox.bytes_to_hex (key (request_definition self)))) = None →
     CommandCall_call logging_bound requests_get_by_key responses_get_by_key
         self args named w =
       (inl KeyError, mkWorld ((REQUEST_ID w + 1) mod 60000) s' (logged w))).
Proof.
  intros Hdebug Hself Hrun Hsend.
  rewrite construct_message_call_unfold in Hrun.
  destruct (decide (is_Some (named !! "message"))) as [|Hmessage]; [done|].
  assert (Hcall :
    CommandCall_call logging_bound requests_get_by_key responses_get_by_key
        self args named w =
      let w' := mkWorld ((REQUEST_ID w + 1) mod 60000) s' (logged w) in
      if logging_bound then
        match explain_klv requests_get_by_key responses_get_by_key
                request_bin with
        | inl e => (inl e, w')
        | inr text =>
            CommandCall_receive logging_bound requests_get_by_key
              responses_get_by_key self
              (mkWorld ((REQUEST_ID w + 1) mod 60000) s'
                 (logged w ++
                  ["REQUEST SENT TO " +:+ host self +:+ ":" +:+
                   pretty (port self) +:+ " : " +:+ nl +:+ text]))
        end
      else (inl NameError, w')).
  { rewrite CommandCall_call_unfold by done.
    unfold mbind at 1, M_bind at 1. rewrite CommandCall_send_paths.
    rewrite decide_False by done.
    cbn zeta. rewrite Hrun, Hsend, Hdebug.
    destruct logging_bound; [|done]. by destruct (explain_klv _ _ _). }
  rewrite Hcall. cbn zeta.
  split; [by intros ->|].
  intros -> Hkey Hreq Hresp.
  rewrite construct_message_unfold in Hrun. cbn zeta in Hrun. cbn [fst] in Hrun.
  destruct (construct_payload_values _ _ _ _ _) as [|pvs]; [done|].
  apply (inj inr) in Hrun. subst request_bin.
  rewrite (explain_klv_unknown_key _ _ HEADER (key (request_definition self))
             _ KeyError); [done..|].
  unfold key_name_of. by rewrite Hreq, Hresp.
Qed.

Lemma X5_debug_call_fails_after_hand_off_witness :
  CommandCall_call Sample.own_imports Sample.requests_get_by_key
      Sample.responses_get_by_key (Sample.call true) [42; 7] ∅
      (Sample.world_reply 0 [Byte.x00; Byte.x00; Byte.x00; Byte.x01]) =
    (inl NameError,
     mkWorld ((0 + 1) mod 60000)
       (mkStream
          (incoming
             (sock (Sample.world_reply 0 [Byte.x00; Byte.x00; Byte.x00; Byte.x01])))
          [Sample.frame26])
       []).
Proof.
  assert (Hself : (∅ : gmap string Z) !! "self" = None) by reflexivity.
  assert (Hrun : fst (construct_message_call
                        (request_definition (Sample.call true)) [42; 7] ∅
                        (Sample.world_reply 0
                           [Byte.x00; Byte.x00; Byte.x00; Byte.x01])) =
                 inr Sample.frame26) by reflexivity.
  assert (Hsend : sock_send Sample.frame26
                    (sock (Sample.world_reply 0
                             [Byte.x00; Byte.x00; Byte.x00; Byte.x01])) =
                  (inr (),
                   mkStream
                     (incoming
                        (sock (Sample.world_reply 0
                                 [Byte.x00; Byte.x00; Byte.x00; Byte.x01])))
                     [Sample.frame26])) by reflexivity.
  destruct (X5_debug_call_fails_after_hand_off Sample.own_imports
              Sample.requests_get_by_key Sample.responses_get_by_key
              (Sample.call true) [42; 7] ∅
              (Sample.world_reply 0 [Byte.x00; Byte.x00; Byte.x00; Byte.x01])
              Sample.frame26
              (mkStream
                 (incoming
                    (sock (Sample.world_reply 0
                             [Byte.x00; Byte.x00; Byte.x00; Byte.x01])))
                 [Sample.frame26])
              eq_refl Hself Hrun Hsend) as [Hname _].
  apply Hname. reflexivity.
Defined.


(** ** Receiving from a byte stream *)

Lemma on_sock_stream_receive (counter : Z) (log : list string)
    (out : list bytes) (a b : bytes) (n : Z) :
  n = Z.of_nat (length a) →
  on_sock (sock_receive n) (mkWorld counter (mkStream (a ++ b) out) log) =
    (inr a, mkWorld counter (mkStream b out) log).
Proof.
  intros ->. unfold on_sock. cbn [sock sock_receive stream_transport].
  unfold stream_receive. cbn [incoming outgoing REQUEST_ID logged].
  rewrite decide_True by (rewrite length_app; lia).
  by rewrite Nat2Z.id, take_app_length, drop_app_length.
Qed.

Lemma ber_from_socket_stream (counter : Z) (log : list string)
    (out : list bytes) (field tail : bytes) (size : Z) :
  ber_field size field →
  ber_from_socket (mkWorld counter (mkStream (field ++ tail) out) log) =
    (inr (size, Z.of_nat (length field), field),
     mkWorld counter (mkStream tail out) log).
Proof.
  destruct field as [|b rest]; [done|]. unfold ber_field.
  intros Hfield. unfold ber_from_socket. unfold mbind at 1, M_bind at 1.
  change ((b :: rest) ++ tail) with ([b] ++ rest ++ tail).
  rewrite (on_sock_stream_receive counter log out [b] (rest ++ tail) 1) by done.
  destruct (Z.testbit (Z_of_byte b) 7).
  - destruct Hfield as [Hk ->]. unfold mbind, M_bind.
    rewrite (on_sock_stream_receive counter log out rest tail) by done.
    unfold mret, M_ret. cbn [length]. repeat f_equal. lia.
  - destruct Hfield as [-> ->]. reflexivity.
Qed.

(** A stream that starts with a well-formed frame delivers its parts to
    the five reads and is left at the byte after the frame. *)
Lemma stream_delivers (counter : Z) (log : list string) (out : list bytes)
    (hdr key field id payload rest : bytes) (size : Z) :
  length hdr = 13%nat → length key = 3%nat → ber_field size field →
  length id = 4%nat → size - 4 = Z.of_nat (length payload) →
  delivers
    (mkWorld counter
       (mkStream (hdr ++ key ++ field ++ id ++ payload ++ rest) out) log)
    hdr key size field id payload
    (mkWorld counter (mkStream rest out) log).
Proof.
  intros Hhdr Hkey Hfield Hid Hsize. unfold delivers.
  eexists _, _, _, _, _.
  split; [apply on_sock_stream_receive; lia|].
  split; [apply on_sock_stream_receive; lia|].
  split; [by apply ber_from_socket_stream|].
  split; [apply on_sock_stream_receive; lia|].
  apply on_sock_stream_receive; lia.
Qed.

Section receive_world.
Context {Arg Val : Type} `{Countable Val}.
Context {Sock : Type} `{Transport Sock}.
Variable logging_bound : bool.
Variable requests_get_by_key : catalog_key → option (MessageDefinition Arg bytes).
Variable responses_get_by_key : catalog_key → option (MessageDefinition bytes Val).

(** The world that [CommandCall.receive] leaves: the world after the five
    reads, with one more log line when debug mode is on, [logging] is
    bound and the lookups of the key succeed. *)
Lemma CommandCall_receive_world (self : CommandCall (Arg := Arg))
    (w w' : World Sock) hdr key size field id payload :
  delivers w hdr key size field id payload w' →
  snd (CommandCall_receive logging_bound requests_get_by_key
         responses_get_by_key self w) =
    match responses_get_by_key (KeyBytes key),
          key_name_of requests_get_by_key responses_get_by_key
            (toolbox.bytes_to_hex key) with
    | Some response_definition, inr key_name =>
        if debug self && logging_bound then
          mkWorld (REQUEST_ID w') (sock w')
            (logged w' ++
             ["RESPONSE RECEIVE FROM " +:+ host self +:+ ":" +:+
              pretty (port self) +:+ " :" +:+ nl +:+ " RESPONSE " +:+
              def_name response_definition +:+ " " +:+
              klv_format
                (mk_klv_segments
                   (toolbox.bytes_to_hex hdr) (toolbox.bytes_to_hex key)
                   key_name (toolbox.bytes_to_hex field) size
                   (toolbox.bytes_to_hex id) (toolbox.bytes_to_int id)
                   (if 40 <? Z.of_nat (length (hdr ++ key ++ field ++ id ++ payload))
                    then substring 0 40 (toolbox.bytes_to_hex payload) +:+ "..."
                    else toolbox.bytes_to_hex payload)) +:+
              "Result : " +:+
              match last payload with
              | Some b => pretty (Z_of_byte b)
              | None => "---"
              end +:+ nl])
        else w'
    | _, _ => w'
    end.
Proof.
  intros (w1 & w2 & w3 & w4 & ber_size & H1 & H2 & H3 & H4 & H5).
  pose proof (on_sock_receive_length _ _ _ _ H1) as Hhdr.
  pose proof (on_sock_receive_length _ _ _ _ H2) as Hkey.
  pose proof (on_sock_receive_length _ _ _ _ H4) as Hid.
  destruct (ber_from_socket_field _ _ _ _ _ H3) as [Hfield _].
  unfold CommandCall_receive.
  unfold mbind at 1, M_bind at 1. rewrite H1.
  unfold mbind at 1, M_bind at 1. rewrite H2.
  unfold mbind at 1, M_bind at 1. rewrite H3.
  unfold mbind at 1, M_bind at 1. rewrite H4.
  unfold mbind at 1, M_bind at 1. rewrite H5.
  unfold mbind at 1, M_bind at 1. unfold lift at 1.
  destruct (responses_get_by_key (KeyBytes key)) as [def|]; cbn [of_option];
    [|done].
  destruct (debug self); cbn [andb].
  - destruct logging_bound.
    + unfold mbind at 1, M_bind at 1. unfold mbind at 1, M_bind at 1.
      unfold logging_name, mret at 1, M_ret at 1.
      unfold mbind at 1, M_bind at 1.
      unfold lift at 1. unfold explain_klv.
      rewrite (explain_klv_segments_frame requests_get_by_key
                 responses_get_by_key hdr key field id payload size)
        by (done || lia).
      destruct (key_name_of _ _ _) as [e|key_name]; [done|].
      cbn [mbind exn_bind mret exn_ret]. unfold logging_debug, lift.
      by destruct (parse_message def payload).
    + unfold mbind, M_bind, logging_name, lift.
      by destruct (key_name_of _ _ _).
  - unfold mbind, M_bind, mret, M_ret, lift.
    destruct (key_name_of _ _ _); by destruct (parse_message def payload).
Qed.

End receive_world.

(** X7. [CommandCall.receive] takes exactly one frame off a byte stream:
    from a stream that starts with 13 header bytes (whatever they are:
    the header is not compared with [HEADER]), a 3-byte key, a well-formed
    length field, a 4-byte id and the announced payload, it consumes
    those bytes and no more, whether the key is known and the payload
    parses or not; it sends nothing, leaves the request-id counter alone
    and, outside debug mode, logs nothing. *)
Theorem X7_receive_consumes_one_frame {Arg Val : Type} `{Countable Val}
    (logging_bound : bool)
    (requests_get_by_key : catalog_key → option (MessageDefinition Arg bytes))
    (responses_get_by_key : catalog_key → option (MessageDefinition bytes Val))
    (self : CommandCall (Arg := Arg)) (counter : Z) (log : list string)
    (out : list bytes) (hdr key field id payload rest : bytes) (size : Z) :
  length hdr = 13%nat → length key = 3%nat → ber_field size field →
  length id = 4%nat → size - 4 = Z.of_nat (length payload) →
  let w' :=
    snd (CommandCall_receive logging_bound requests_get_by_key
           responses_get_by_key self
           (mkWorld counter
              (mkStream (hdr ++ key ++ field ++ id ++ payload ++ rest) out)
              log)) in
  sock w' = mkStream rest out ∧
  REQUEST_ID w' = counter ∧
  (debug self = false → logged w' = log).
Proof.
  intros Hhdr Hkey Hfield Hid Hsize w'. subst w'.
  rewrite (CommandCall_receive_world logging_bound requests_get_by_key
             responses_get_by_key self _ _ _ _ _ _ _ _
             (stream_delivers counter log out hdr key field id payload rest
                size Hhdr Hkey Hfield Hid Hsize)).
  destruct (responses_get_by_key _) as [def|]; [|done].
  destruct (key_name_of _ _ _) as [e|key_name]; [done|].
  destruct (debug self), logging_bound; done.
Qed.

Lemma X7_receive_consumes_one_frame_witness :
  sock (snd (CommandCall_receive Sample.own_imports
               Sample.requests_get_by_key
               Sample.responses_get_by_key (Sample.call true)
               (mkWorld 5
                  (mkStream
                     (replicate 13 Byte.xff ++ [Byte.xaa; Byte.xbb; Byte.xcc] ++
                      [Byte.x09] ++ [Byte.x00; Byte.x00; Byte.x00; Byte.x01] ++
                      [Byte.x00; Byte.x00; Byte.x00; Byte.x2a; Byte.x07] ++
                      [Byte.x06; Byte.x0e]) [])
                  []))) =
    mkStream [Byte.x06; Byte.x0e] [].
Proof.
  apply (X7_receive_consumes_one_frame Sample.own_imports
           Sample.requests_get_by_key
           Sample.responses_get_by_key (Sample.call true) 5 [] []
           (replicate 13 Byte.xff) [Byte.xaa; Byte.xbb; Byte.xcc] [Byte.x09]
           [Byte.x00; Byte.x00; Byte.x00; Byte.x01]
           [Byte.x00; Byte.x00; Byte.x00; Byte.x2a; Byte.x07]
           [Byte.x06; Byte.x0e] 9); first [reflexivity | by split].
Defined.

(** X8. What [construct_message] builds, [CommandCall.receive] reads back:
    when the frame of a request arrives on the stream, and the response
    catalog maps its key to the peer schema of the request, a receive
    outside debug mode returns the values that were bound to the fields,
    assigned to the field names in schema order, and leaves the stream at
    the byte after the frame. *)
Theorem X8_constructed_frame_received {V : Type} `{Countable V}
    (logging_bound : bool)
    (requests_get_by_key : catalog_key → option (MessageDefinition V bytes))
    (responses_get_by_key : catalog_key → option (MessageDefinition bytes V))
    (self : CommandCall (Arg := V)) (response : MessageDefinition bytes V)
    (args : list V) (kwargs : gmap string V) (w : World Stream)
    (request_bin rest : bytes) (counter : Z) (log : list string)
    (out : list bytes) :
  fst (construct_message (request_definition self) args kwargs w) = inr request_bin →
  length (key (request_definition self)) = 3%nat →
  Z.of_nat (length request_bin) < 2 ^ 1016 →
  responses_get_by_key (KeyBytes (key (request_definition self))) = Some response →
  peer_schema 0 (elements (request_definition self)) (elements response) →
  debug self = false →
  ∃ vs,
    resolve_arguments (elements (request_definition self)) args kwargs = Some vs ∧
    CommandCall_receive logging_bound requests_get_by_key
        responses_get_by_key self
        (mkWorld counter (mkStream (request_bin ++ rest) out) log) =
      (inr (od_assign (entries (elements response) vs) []),
       mkWorld counter (mkStream rest out) log).
Proof.
  rewrite construct_message_unfold. cbn zeta. cbn [fst].
  destruct (construct_payload_values _ _ _ _ _) as [|pvs] eqn:Hloop; [done|].
  intros <-%(inj inr) Hkey Hlen Hresp Hpeer Hdebug.
  apply construct_payload_values_inr in Hloop as (vs & cs & Hvs & Hcs & ->).
  cbn [app] in Hlen |- *.
  set (id := toolbox.int_to_bytes ((REQUEST_ID w + 1) mod 60000) 4) in *.
  set (n := Z.of_nat (length (id ++ concat cs))) in *.
  assert (Hid : length id = 4%nat) by apply length_int_to_bytes.
  assert (Hn : 0 ≤ n < 2 ^ 1016).
  { rewrite !length_app in Hlen. subst n. rewrite length_app. lia. }
  assert (Hsize : n - 4 = Z.of_nat (length (concat cs))).
  { subst n. rewrite length_app. lia. }
  exists vs. split; [done|].
  assert (Hshape : (HEADER ++ key (request_definition self) ++
                    toolbox.encode_ber n ++ id ++ concat cs) ++ rest =
                   HEADER ++ key (request_definition self) ++
                   toolbox.encode_ber n ++ id ++ concat cs ++ rest).
  { by rewrite <- !app_assoc. }
  rewrite Hshape.
  pose proof (stream_delivers counter log out HEADER
                (key (request_definition self)) (toolbox.encode_ber n) id
                (concat cs) rest n eq_refl Hkey (encode_ber_field n Hn) Hid
                Hsize) as Hdel.
  rewrite (surjective_pairing (CommandCall_receive _ _ _ _ _)).
  rewrite (CommandCall_receive_delivered logging_bound requests_get_by_key
             responses_get_by_key self _ _ _ _ _ _ _ _ Hdel).
  rewrite (CommandCall_receive_world logging_bound requests_get_by_key
             responses_get_by_key self _ _ _ _ _ _ _ _ Hdel).
  rewrite Hresp, Hdebug. cbn [of_option mbind exn_bind mret exn_ret andb].
  pose proof (decode_fields_encoded _ _ _ _ [] Hpeer Hcs) as Hdec.
  cbn [app] in Hdec.
  unfold parse_message. rewrite parse_elements_entries, Hdec.
  by destruct (key_name_of _ _ _).
Qed.

Lemma X8_constructed_frame_received_witness :
  ∃ vs,
    resolve_arguments (elements Sample.request) [42; 7] ∅ = Some vs ∧
    CommandCall_receive Sample.own_imports Sample.requests_get_by_key
        Sample.responses_get_by_key (Sample.call false)
        (mkWorld 9 (mkStream (Sample.frame26 ++ [Byte.x06]) []) []) =
      (inr (od_assign (entries (elements Sample.response) vs) []),
       mkWorld 9 (mkStream [Byte.x06] []) []).
Proof.
  apply (X8_constructed_frame_received Sample.own_imports
           Sample.requests_get_by_key
           Sample.responses_get_by_key (Sample.call false) Sample.response
           [42; 7] ∅ Sample.world0 Sample.frame26 [Byte.x06] 9 [] []).
  - reflexivity.
  - reflexivity.
  - vm_compute. reflexivity.
  - reflexivity.
  - apply sample_peer_schema.
  - reflexivity.
Defined.

(** X9. Debug mode fails a receive that succeeds without it.  After the
    five reads the response schema is looked up under the key bytes, and
    outside debug mode the parsed payload is returned.  In debug mode
    the log call comes first: with the imports that [commands.py] lists,
    the name [logging] is unbound and the receive raises [NameError];
    when the star import binds it, the rendering looks the key up under
    its hex form, in the request catalog and then in the response
    catalog, and the receive raises [KeyError] when both miss.  In both
    failures the frame is consumed and nothing is logged. *)
Theorem X9_receive_debug_failures {Arg Val Sock : Type} `{Countable Val}
    `{Transport Sock} (logging_bound : bool)
    (requests_get_by_key : catalog_key → option (MessageDefinition Arg bytes))
    (responses_get_by_key : catalog_key → option (MessageDefinition bytes Val))
    (self : CommandCall (Arg := Arg)) (w w' : World Sock)
    (hdr key field id payload : bytes) (size : Z)
    (response_definition : MessageDefinition bytes Val) :
  delivers w hdr key size field id payload w' →
  responses_get_by_key (KeyBytes key) = Some response_definition →
  (debug self = false →
     CommandCall_receive logging_bound requests_get_by_key
         responses_get_by_key self w =
       (parse_message response_definition payload, w')) ∧
  (debug self = true → logging_bound = false →
     CommandCall_receive logging_bound requests_get_by_key
         responses_get_by_key self w =
       (inl NameError, w')) ∧
  (debug self = true → logging_bound = true →
     requests_get_by_key (KeyHex (toolbox.bytes_to_hex key)) = None →
     responses_get_by_key (KeyHex (toolbox.bytes_to_hex key)) = None →
     CommandCall_receive logging_bound requests_get_by_key
         responses_get_by_key self w =
       (inl KeyError, w')).
Proof.
  intros Hdel Hbytes.
  rewrite (surjective_pairing (CommandCall_receive _ _ _ _ _)).
  rewrite (CommandCall_receive_delivered logging_bound requests_get_by_key
             responses_get_by_key self _ _ _ _ _ _ _ _ Hdel).
  rewrite (CommandCall_receive_world logging_bound requests_get_by_key
             responses_get_by_key self _ _ _ _ _ _ _ _ Hdel).
  rewrite Hbytes. cbn [of_option mbind exn_bind].
  split; [|split].
  - intros ->. cbn [andb mret exn_ret].
    by destruct (key_name_of _ _ _).
  - intros -> ->. cbn [andb]. by destruct (key_name_of _ _ _).
  - intros -> -> Hreq Hresp. unfold key_name_of. by rewrite Hreq, Hresp.
Qed.

Lemma X9_receive_debug_failures_witness :
  CommandCall_receive Sample.own_imports Sample.requests_get_by_key
      Sample.responses_get_by_key (Sample.call true)
      (Sample.world_reply 1 [Byte.x00; Byte.x00; Byte.x00; Byte.x01]) =
    (inl NameError, mkWorld 1 (mkStream [] []) []) ∧
  CommandCall_receive Sample.own_imports Sample.requests_get_by_key
      Sample.responses_get_by_key (Sample.call false)
      (Sample.world_reply 1 [Byte.x00; Byte.x00; Byte.x00; Byte.x01]) =
    (inr [("a", Decoded 42); ("b", Decoded 7); ("b_text", Text "Busy")],
     mkWorld 1 (mkStream [] []) []) ∧
  CommandCall_receive Sample.logging_imported
      SampleBytesOnly.requests_get_by_key SampleBytesOnly.responses_get_by_key
      (Sample.call true)
      (Sample.world_reply 1 [Byte.x00; Byte.x00; Byte.x00; Byte.x01]) =
    (inl KeyError, mkWorld 1 (mkStream [] []) []).
Proof.
  assert (Hdel : delivers
            (Sample.world_reply 1 [Byte.x00; Byte.x00; Byte.x00; Byte.x01])
            HEADER [Byte.xaa; Byte.xbb; Byte.xcc] 9 [Byte.x09]
            [Byte.x00; Byte.x00; Byte.x00; Byte.x01]
            [Byte.x00; Byte.x00; Byte.x00; Byte.x2a; Byte.x07]
            (mkWorld 1 (mkStream [] []) []))
    by (unfold delivers; repeat eexists; reflexivity).
  assert (Hbytes : Sample.responses_get_by_key
                     (KeyBytes [Byte.xaa; Byte.xbb; Byte.xcc]) =
                   Some Sample.response) by reflexivity.
  assert (Hbytes' : SampleBytesOnly.responses_get_by_key
                      (KeyBytes [Byte.xaa; Byte.xbb; Byte.xcc]) =
                    Some Sample.response) by reflexivity.
  split; [|split].
  - destruct (X9_receive_debug_failures Sample.own_imports
                Sample.requests_get_by_key Sample.responses_get_by_key
                (Sample.call true) _ _ _ _ _ _ _ _ Sample.response
                Hdel Hbytes) as (_ & Hname & _).
    apply Hname; reflexivity.
  - destruct (X9_receive_debug_failures Sample.own_imports
                Sample.requests_get_by_key Sample.responses_get_by_key
                (Sample.call false) _ _ _ _ _ _ _ _ Sample.response
                Hdel Hbytes) as (Hplain & _).
    rewrite Hplain; reflexivity.
  - destruct (X9_receive_debug_failures Sample.logging_imported
                SampleBytesOnly.requests_get_by_key
                SampleBytesOnly.responses_get_by_key
                (Sample.call true) _ _ _ _ _ _ _ _ Sample.response
                Hdel Hbytes') as (_ & _ & Hkey).
    apply Hkey; reflexivity.
Defined.

(** ** More on [explain_klv] *)

Lemma string_app_assoc (s1 s2 s3 : string) :
  (s1 +:+ s2) +:+ s3 = s1 +:+ (s2 +:+ s3).
Proof.
  induction s1 as [|c s1 IH]; [done|].
  change (String c ((s1 +:+ s2) +:+ s3) = String c (s1 +:+ (s2 +:+ s3))).
  by rewrite IH.
Qed.

Lemma bytes_to_hex_app (a b : bytes) :
  toolbox.bytes_to_hex (a ++ b) = toolbox.bytes_to_hex a +:+ toolbox.bytes_to_hex b.
Proof. induction a as [|x a IH]; simpl; [done|]. by rewrite IH. Qed.

(** The first [2 * n] hex digits are the hex of the first [n] bytes. *)
Lemma substring_bytes_to_hex (n : nat) : ∀ data : bytes,
  substring 0 (2 * n) (toolbox.bytes_to_hex data) =
    toolbox.bytes_to_hex (take n data).
Proof.
  induction n as [|n IH]; intros data.
  - cbn. by destruct (toolbox.bytes_to_hex data).
  - replace (2 * S n)%nat with (S (S (2 * n))) by lia.
    destruct data as [|b data]; [done|].
    cbn [toolbox.bytes_to_hex substring take]. by rewrite IH.
Qed.

(** X10. The last line of the trace, [Command], is the hex dump of the
    frame itself: for a frame of at most 40 bytes the five segments put
    together are the hex of the whole frame, and for a longer frame they
    are the hex of the frame cut after the first 20 payload bytes,
    followed by ["..."].  The [Ber] and [ID] numbers shown are the
    announced length and the big-endian value of the id bytes. *)
Theorem X10_explain_klv_command_line {Arg Val : Type} `{Countable Val}
    (requests_get_by_key : catalog_key → option (MessageDefinition Arg bytes))
    (responses_get_by_key : catalog_key → option (MessageDefinition bytes Val))
    (hdr key field id payload : bytes) (size : Z) (segs : klv_segments) :
  length hdr = 13%nat → length key = 3%nat → ber_field size field →
  length id = 4%nat →
  explain_klv_segments requests_get_by_key responses_get_by_key
    (hdr ++ key ++ field ++ id ++ payload) = inr segs →
  header_hex segs +:+ key_hex segs +:+ ber_hex segs +:+ id_hex segs +:+
    short_hex segs =
    (if decide (length (hdr ++ key ++ field ++ id ++ payload) ≤ 40)%nat
     then toolbox.bytes_to_hex (hdr ++ key ++ field ++ id ++ payload)
     else toolbox.bytes_to_hex (hdr ++ key ++ field ++ id ++ take 20 payload)
          +:+ "...") ∧
  ber segs = size ∧
  id_int segs = toolbox.bytes_to_int id.
Proof.
  intros Hhdr Hkey Hfield Hid.
  rewrite (explain_klv_segments_frame requests_get_by_key responses_get_by_key
             hdr key field id payload size) by done.
  destruct (key_name_of _ _ _) as [|key_name]; [done|].
  intros <-%(inj inr). cbn [header_hex key_hex ber_hex id_hex short_hex ber id_int].
  split; [|done].
  rewrite !bytes_to_hex_app.
  destruct (Z.ltb_spec 40 (Z.of_nat (length (hdr ++ key ++ field ++ id ++ payload))))
    as [Hlong|Hshort].
  - rewrite decide_False by lia.
    change 40%nat with (2 * 20)%nat. rewrite substring_bytes_to_hex.
    by rewrite !string_app_assoc.
  - by rewrite decide_True by lia.
Qed.

Lemma X10_explain_klv_command_line_witness :
  "060e2b340205010a0e10010101" +:+ "aabbcc" +:+ "18" +:+ "00000001" +:+
    "2a2a2a2a2a2a2a2a2a2a2a2a2a2a2a2a2a2a2a2a..." =
    (if decide (length Sample.frame41 ≤ 40)%nat
     then toolbox.bytes_to_hex Sample.frame41
     else toolbox.bytes_to_hex
            (HEADER ++ [Byte.xaa; Byte.xbb; Byte.xcc] ++ [Byte.x18] ++
             [Byte.x00; Byte.x00; Byte.x00; Byte.x01] ++
             take 20 (replicate 20 Byte.x2a)) +:+ "...") ∧
  24 = 24 ∧
  1 = toolbox.bytes_to_int [Byte.x00; Byte.x00; Byte.x00; Byte.x01].
Proof.
  apply (X10_explain_klv_command_line Sample.requests_get_by_key
           Sample.responses_get_by_key HEADER [Byte.xaa; Byte.xbb; Byte.xcc]
           [Byte.x18] [Byte.x00; Byte.x00; Byte.x00; Byte.x01]
           (replicate 20 Byte.x2a) 24
           (mk_klv_segments "060e2b340205010a0e10010101" "aabbcc"
              "Sample Request" "18" 24 "00000001" 1
              "2a2a2a2a2a2a2a2a2a2a2a2a2a2a2a2a2a2a2a2a..."));
    first [reflexivity | by split].
Defined.

(** X11. [explain_klv] reads back what [construct_message] wrote: the
    frame of a request whose 3-byte key a catalog knows is always
    rendered, the [ID] shown is the request id that the construction has
    just taken, and the [Ber] number shown counts the bytes of the frame
    that follow the length field. *)
Theorem X11_explain_klv_of_constructed_frame {Arg Val Sock : Type}
    `{Countable Val}
    (requests_get_by_key : catalog_key → option (MessageDefinition Arg bytes))
    (responses_get_by_key : catalog_key → option (MessageDefinition bytes Val))
    (message : MessageDefinition Arg bytes) (args : list Arg)
    (kwargs : gmap string Arg) (w w' : World Sock) (data : bytes) :
  construct_message message args kwargs w = (inr data, w') →
  length (key message) = 3%nat →
  Z.of_nat (length data) < 2 ^ 1016 →
  (is_Some (requests_get_by_key (KeyHex (toolbox.bytes_to_hex (key message)))) ∨
   is_Some (responses_get_by_key (KeyHex (toolbox.bytes_to_hex (key message))))) →
  ∃ segs,
    explain_klv requests_get_by_key responses_get_by_key data =
      inr (klv_format segs) ∧
    id_int segs = REQUEST_ID w' ∧
    Z.of_nat (length data) =
      16 + Z.of_nat (length (toolbox.encode_ber (ber segs))) + ber segs ∧
    key_hex segs = toolbox.bytes_to_hex (key message).
Proof.
  intros Hrun Hkey Hlen Hknown.
  assert (Hw' : REQUEST_ID w' = (REQUEST_ID w + 1) mod 60000).
  { rewrite construct_message_unfold in Hrun. cbn zeta in Hrun.
    by injection Hrun as _ <-. }
  destruct (explain_klv_constructed requests_get_by_key responses_get_by_key
              message args kwargs w data) as (segs & _ & Htext & _ & Hk & Hb & Hi);
    [by rewrite Hrun|done..|].
  exists segs. by rewrite Hw'.
Qed.

Lemma X11_explain_klv_of_constructed_frame_witness :
  ∃ segs,
    explain_klv Sample.requests_get_by_key Sample.responses_get_by_key
      Sample.frame26 = inr (klv_format segs) ∧
    id_int segs = REQUEST_ID (mkWorld (Sock := Stream) 1 (mkStream [] []) []) ∧
    Z.of_nat (length Sample.frame26) =
      16 + Z.of_nat (length (toolbox.encode_ber (ber segs))) + ber segs ∧
    key_hex segs = toolbox.bytes_to_hex (key Sample.request).
Proof.
  assert (Hrun : construct_message Sample.request [42; 7] ∅ Sample.world0 =
                   (inr Sample.frame26, mkWorld 1 (mkStream [] []) []))
    by reflexivity.
  apply (X11_explain_klv_of_constructed_frame Sample.requests_get_by_key
           Sample.responses_get_by_key Sample.request [42; 7] ∅ Sample.world0
           _ Sample.frame26 Hrun).
  - reflexivity.
  - vm_compute. reflexivity.
  - left. by eexists.
Defined.

(** ** More on [parse_message] *)

Lemma py_slice_app_l {A} (data extra : list A) (lo hi : Z) :
  0 ≤ lo → 0 ≤ hi ≤ Z.of_nat (length data) →
  py_slice (data ++ extra) lo hi = py_slice data lo hi.
Proof.
  intros Hlo Hhi. unfold py_slice, slice_index. rewrite length_app.
  destruct (Z.ltb_spec lo 0); [lia|]. destruct (Z.ltb_spec hi 0); [lia|].
  destruct (decide (lo ≤ Z.of_nat (length data))) as [Hin|Hout].
  - rewrite !Z.max_r, !Z.min_r by lia.
    rewrite drop_app_le by lia. apply take_app_le.
    rewrite length_drop. lia.
  - replace (Z.to_nat (Z.max 0 (Z.min (Z.of_nat (length data + length extra)) hi) -
                       Z.max 0 (Z.min (Z.of_nat (length data + length extra)) lo)))
      with 0%nat by lia.
    replace (Z.to_nat (Z.max 0 (Z.min (Z.of_nat (length data)) hi) -
                       Z.max 0 (Z.min (Z.of_nat (length data)) lo)))
      with 0%nat by lia.
    done.
Qed.

Lemma py_slice_past_end {A} (data : list A) (lo hi : Z) :
  Z.of_nat (length data) ≤ lo → py_slice data lo hi = [].
Proof.
  intros Hlo. unfold py_slice, slice_index.
  destruct (Z.ltb_spec lo 0); [lia|].
  replace (Z.to_nat _) with 0%nat by (destruct (hi <? 0); lia).
  done.
Qed.

Lemma py_slice_nil {A} (lo hi : Z) : py_slice (@nil A) lo hi = [].
Proof. unfold py_slice. by rewrite drop_nil, take_nil. Qed.

Section parse_more.
Context {Val : Type} `{Countable Val}.
Implicit Types (elems : list (MessageElement bytes Val)).

Lemma decode_fields_nil elems :
  decode_fields elems [] = mapM (λ elem, func elem []) elems.
Proof.
  unfold decode_fields. induction elems as [|elem elems IH]; [done|].
  cbn [mapM]. by rewrite py_slice_nil, IH.
Qed.

Lemma decode_fields_ext elems (payload payload' : bytes) :
  (∀ elem, elem ∈ elems →
     py_slice payload' (start elem) (end_ elem) =
     py_slice payload (start elem) (end_ elem)) →
  decode_fields elems payload' = decode_fields elems payload.
Proof.
  unfold decode_fields.
  induction elems as [|elem elems IH]; intros Hsame; [done|].
  cbn [mapM]. rewrite (Hsame elem) by (by left).
  rewrite IH; [done|]. intros elem' Helem'. apply Hsame. by right.
Qed.

Lemma parse_message_ext (message : MessageDefinition bytes Val)
    (payload payload' : bytes) :
  (∀ elem, elem ∈ elements message →
     py_slice payload' (start elem) (end_ elem) =
     py_slice payload (start elem) (end_ elem)) →
  parse_message message payload' = parse_message message payload.
Proof.
  intros Hsame. unfold parse_message.
  by rewrite !parse_elements_entries, (decode_fields_ext _ payload payload').
Qed.

Lemma od_get_set_ne {V} (k k' : string) (v : V) (d : OrderedDict V) :
  k ≠ k' → od_get k' (od_set k v d) = od_get k' d.
Proof.
  intros Hne. induction d as [|[k0 v0] d IH]; cbn.
  - by rewrite decide_False.
  - destruct (decide (k = k0)) as [->|Hk]; cbn.
    + by rewrite !decide_False.
    + by rewrite IH.
Qed.

Lemma od_set_keys_NoDup {V} (k : string) (v : V) (d : OrderedDict V) :
  NoDup d.*1 → NoDup (od_set k v d).*1.
Proof.
  destruct (decide (k ∈ d.*1)) as [Hin|Hout].
  - assert (Hkeys : (od_set k v d).*1 = d.*1); [|by rewrite Hkeys].
    induction d as [|[k0 v0] d IH]; cbn in Hin |- *; [by apply elem_of_nil in Hin|].
    destruct (decide (k = k0)) as [->|Hk]; [done|]. cbn. f_equal.
    apply IH. by apply elem_of_cons in Hin as [?|?].
  - intros Hnd. rewrite od_set_fresh by done. rewrite fmap_app.
    apply NoDup_app. split; [done|]. split; [|apply NoDup_singleton].
    intros k' Hk' ->%list_elem_of_singleton. done.
Qed.

Lemma od_assign_keys_NoDup {V} (bs : list (string * V)) : ∀ d : OrderedDict V,
  NoDup d.*1 → NoDup (od_assign bs d).*1.
Proof.
  induction bs as [|[k v] bs IH]; intros d Hnd; [done|].
  apply (IH (od_set k v d)). by apply od_set_keys_NoDup.
Qed.

Lemma od_get_snoc {V} (k k' : string) (v : V) (d : OrderedDict V) :
  od_get k (d ++ [(k', v)]) =
    match od_get k d with
    | Some x => Some x
    | None => if decide (k = k') then Some v else None
    end.
Proof.
  induction d as [|[k0 v0] d IH]; cbn; [done|].
  by destruct (decide (k = k0)).
Qed.

(** A lookup after a run of assignments finds the last assignment to the
    key, or else what was there before. *)
Lemma od_get_assign {V} (k : string) (bs : list (string * V)) :
  ∀ d : OrderedDict V,
    od_get k (od_assign bs d) =
      match od_get k (reverse bs) with
      | Some v => Some v
      | None => od_get k d
      end.
Proof.
  induction bs as [|[k' v] bs IH]; intros d; [done|].
  change (od_assign ((k', v) :: bs) d) with (od_assign bs (od_set k' v d)).
  rewrite IH, reverse_cons, od_get_snoc.
  destruct (od_get k (reverse bs)); [done|].
  destruct (decide (k = k')) as [->|Hne].
  - apply od_get_set.
  - by apply od_get_set_ne.
Qed.

End parse_more.

(** X12. [parse_message] reads the payload through the byte ranges of
    the fields only: when the ranges are given by non-negative bounds
    that lie within the payload, bytes appended to the payload change
    nothing.  (A negative bound counts from the end of the payload and
    is not covered.) *)
Theorem X12_parse_message_ignores_trailing_bytes {Val : Type} `{Countable Val}
    (message : MessageDefinition bytes Val) (payload extra : bytes) :
  (∀ elem, elem ∈ elements message →
     0 ≤ start elem ∧ 0 ≤ end_ elem ≤ Z.of_nat (length payload)) →
  parse_message message (payload ++ extra) = parse_message message payload.
Proof.
  intros Hin. apply parse_message_ext. intros elem Helem.
  destruct (Hin elem Helem) as [Hlo Hhi]. by apply py_slice_app_l.
Qed.

Lemma X12_parse_message_ignores_trailing_bytes_witness :
  parse_message Sample.response
    ([Byte.x00; Byte.x00; Byte.x00; Byte.x2a; Byte.x07] ++ [Byte.xff; Byte.xff]) =
  parse_message Sample.response
    [Byte.x00; Byte.x00; Byte.x00; Byte.x2a; Byte.x07].
Proof.
  apply (X12_parse_message_ignores_trailing_bytes Sample.response).
  intros elem Helem.
  repeat (apply elem_of_cons in Helem as [->|Helem]; [cbn; lia|]).
  by apply elem_of_nil in Helem.
Defined.

(** X13. [parse_message] makes no length check of its own: a slice past
    the end of the payload is empty, so a payload that ends before the
    fields begin is parsed like the empty payload, every [func] being
    applied to the empty byte string; only a [func] can make the call
    fail. *)
Theorem X13_parse_message_short_payload {Val : Type} `{Countable Val}
    (message : MessageDefinition bytes Val) (payload : bytes) :
  (∀ elem, elem ∈ elements message → Z.of_nat (length payload) ≤ start elem) →
  parse_message message payload = parse_message message [] ∧
  parse_message message [] =
    match mapM (λ elem, func elem []) (elements message) with
    | Some vs => inr (od_assign (entries (elements message) vs) [])
    | None => inl FuncError
    end.
Proof.
  intros Hshort. split.
  - apply parse_message_ext. intros elem Helem.
    specialize (Hshort elem Helem).
    rewrite (py_slice_past_end payload), (py_slice_past_end []);
      cbn [length]; [done|lia..].
  - unfold parse_message. by rewrite parse_elements_entries, decode_fields_nil.
Qed.

Lemma X13_parse_message_short_payload_witness :
  parse_message Sample.empty_table_response [] = inl FuncError.
Proof.
  destruct (X13_parse_message_short_payload Sample.empty_table_response [])
    as [_ Hempty].
  - intros elem Helem. cbn [length].
    repeat (apply elem_of_cons in Helem as [->|Helem]; [cbn; lia|]).
    by apply elem_of_nil in Helem.
  - rewrite Hempty. reflexivity.
Defined.

(** X14. The result of [parse_message] is a dictionary: its keys are
    pairwise distinct, whatever the names of the fields, and a lookup
    under a key gives the value of the last entry written under it, so
    that of two fields with one name the later one wins. *)
Theorem X14_parse_message_result_is_a_dictionary {Val : Type} `{Countable Val}
    (message : MessageDefinition bytes Val) (payload : bytes)
    (result : OrderedDict (parsed Val)) :
  parse_message message payload = inr result →
  NoDup result.*1 ∧
  ∃ vs, decode_fields (elements message) payload = Some vs ∧
        ∀ k, od_get k result =
             od_get k (reverse (entries (elements message) vs)).
Proof.
  unfold parse_message. rewrite parse_elements_entries.
  destruct (decode_fields _ _) as [vs|]; [|done].
  intros <-%(inj inr). split.
  - apply od_assign_keys_NoDup. constructor.
  - exists vs. split; [done|]. intros k. rewrite od_get_assign.
    by destruct (od_get k _).
Qed.

Lemma X14_parse_message_result_is_a_dictionary_witness :
  NoDup [("a", Decoded 2)].*1 ∧
  ∃ vs, decode_fields (elements Sample.twin_response) [Byte.x01; Byte.x02] =
          Some vs ∧
        ∀ k, od_get k [("a", Decoded 2)] =
             od_get k (reverse (entries (elements Sample.twin_response) vs)).
Proof.
  apply (X14_parse_message_result_is_a_dictionary Sample.twin_response
           [Byte.x01; Byte.x02]).
  reflexivity.
Defined.
